(** * Widget settings service (app/services/widgets/settings/widget-settings.ts)

    A shallow embedding of the abstract class [WidgetSettingsService]:
    the JavaScript values it shuffles around, the declarative tab list and
    its resolution, and the asynchronous operations [fetchData], [saveData],
    [saveSettings] together with the socket handler
    [onSettingsUpdatedHandler].

    Asynchronous methods are embedded in a state-and-error monad over a
    [World] that holds the store ([this.state.data]), the remote end, the
    log of HTTP exchanges and the values pushed on the [dataUpdated]
    subject.  A method is run to completion; socket events are delivered
    between methods. *)

From Stdlib Require Import ZArith Ascii String.
From stdpp Require Import gmap strings list fin_maps pretty.

Local Open Scope Z_scope.
Local Open Scope string_scope.

(** ** JavaScript values *)

Module JS.

(** Own data properties only; the prototype chain is not modelled.
    Arrays are objects keyed by their indices as far as this service is
    concerned.  Numeric leaves are never computed with, only tested for
    zero. *)
#[warnings="-register-all"]
Inductive value : Type :=
| VUndef
| VNull
| VBool (b : bool)
| VNum (n : Z)
| VStr (s : string)
| VObj (o : gmap string value).

(** [ToBoolean] *)
Definition truthy (v : value) : bool :=
  match v with
  | VUndef | VNull => false
  | VBool b => b
  | VNum n => negb (Z.eqb n 0)
  | VStr s => negb (String.eqb s "")
  | VObj _ => true
  end.

Definition is_object (v : value) : bool :=
  match v with VObj _ => true | _ => false end.

Fixpoint chars_from (i : nat) (s : string) : list (string * value) :=
  match s with
  | EmptyString => []
  | String c rest => (pretty i, VStr (String c "")) :: chars_from (S i) rest
  end.

(** The own enumerable properties a value contributes as a source of
    [Object.assign]: those of an object, the indexed characters of a
    string, none for the other primitives, [null] and [undefined]. *)
Definition own_props (v : value) : gmap string value :=
  match v with
  | VObj o => o
  | VStr s => list_to_map (chars_from 0 s)
  | _ => ∅
  end.

(** [Object.assign(target, ...sources)]: later sources win. *)
Definition Object_assign (target : gmap string value) (sources : list value)
  : gmap string value :=
  foldl (λ t s, own_props s ∪ t) target sources.

(** [o.k] on an object *)
Definition get (k : string) (o : gmap string value) : value :=
  default VUndef (o !! k).

(** [a || b] on optional strings; [None] is [undefined]. *)
Definition truthy_str (a : option string) : bool :=
  match a with
  | Some s => negb (String.eqb s "")
  | None => false
  end.

Definition or_str (a b : option string) : option string :=
  if truthy_str a then a else b.

(** [String.prototype] helpers used for tab titles.  A string is the
    sequence of its code units; [toUpperCase] is the platform's and is
    taken from [Platform] below, [upper_ascii] being what it does to an
    ASCII character. *)
Definition charAt (s : string) (i : nat) : string :=
  match String.get i s with
  | Some c => String c ""
  | None => ""
  end.

Definition upper_ascii (c : ascii) : ascii :=
  let n := nat_of_ascii c in
  if Nat.leb 97 n && Nat.leb n 122 then ascii_of_nat (n - 32) else c.

Definition substr (s : string) (from : nat) : string :=
  String.substring from (String.length s - from) s.

End JS.

Import JS.

Infix "|||" := or_str (at level 50, left associativity).

(** [String.prototype.toUpperCase], a built-in of the platform: nothing is
    known of it but what it does to the empty string and to a string of
    one ASCII character. *)
Class Platform := {
  toUpperCase : string → string;
  toUpperCase_empty : toUpperCase "" = "";
  toUpperCase_ascii (c : ascii) :
    (nat_of_ascii c < 128)%nat →
    toUpperCase (String c "") = String (upper_ascii c) ""
}.

(** ** Interfaces *)

Inductive THttpMethod := GET | POST | DELETE.

(** A tab as [getTabs] returns it.  The interface declares every field,
    but the spread of an entry can leave [undefined] ([None]) in any field
    that is optional in an entry. *)
Record IWidgetTab := {
  title : option string;
  name : string;
  fetchUrl : option string;
  saveUrl : option string;
  resetUrl : option string;
  resetMethod : option THttpMethod;
  autosave : option bool;
  showControls : option bool
}.

(** [Partial<IWidgetTab> & { name: string }]: [name] is a string; every
    other key is absent ([None]), or present with the value [undefined]
    ([Some None]) or with a value of its type ([Some (Some v)]). *)
Module Partial.
Definition key (A : Type) : Type := option (option A).

(** [tab.k]: [undefined] when the key is absent. *)
Definition read {A} (k : key A) : option A := default None k.

Record tab := {
  name : string;
  title : key string;
  fetchUrl : key string;
  saveUrl : key string;
  resetUrl : key string;
  resetMethod : key THttpMethod;
  autosave : key bool;
  showControls : key bool
}.

Definition named (n : string) : tab :=
  {| name := n; title := None; fetchUrl := None; saveUrl := None;
     resetUrl := None; resetMethod := None; autosave := None;
     showControls := None |}.
End Partial.

Record IWidgetApiSettings := {
  settingsUpdatedEvent : string;
  settingsSaveUrl : string
}.

Record ISocketEvent := {
  type : string;
  message : value
}.

Definition CODE_EDITOR_TABS : list Partial.tab :=
  map (λ n, {| Partial.name := n; Partial.title := None;
               Partial.fetchUrl := None; Partial.saveUrl := None;
               Partial.resetUrl := None; Partial.resetMethod := None;
               Partial.autosave := Some (Some false);
               Partial.showControls := Some (Some false) |})
      ["HTML"; "CSS"; "JS"].

Definition CODE_EDITOR_WITH_CUSTOM_FIELDS_TABS : list Partial.tab :=
  CODE_EDITOR_TABS ++
  [ {| Partial.name := "customFields";
       Partial.title := Some (Some "Custom Fields");
       Partial.fetchUrl := None; Partial.saveUrl := None;
       Partial.resetUrl := None; Partial.resetMethod := None;
       Partial.autosave := Some (Some false);
       Partial.showControls := Some (Some false) |} ].

(** ** The abstract class

    The abstract and overridable members of [WidgetSettingsService].  The
    widget type (an enum declared elsewhere) is carried as the value written
    into the document, the API token as the string read from the user
    service. *)
Class WidgetSettingsService := {
  getApiSettings : IWidgetApiSettings;
  getDataUrl : string;
  getWidgetType : value;
  tabs : list Partial.tab;
  patchAfterFetch : value → value;
  patchBeforeSend : value → value;
  getApiToken : string
}.

(** What the base class provides when a member is not overridden. *)
Module Base.
Definition getApiSettings : IWidgetApiSettings :=
  {| settingsUpdatedEvent := ""; settingsSaveUrl := "" |}.
Definition tabs : list Partial.tab := [Partial.named "settings"].
Definition patchAfterFetch (data : value) : value := data.
Definition patchBeforeSend (data : value) : value := data.
End Base.

(** ** Tabs *)

Section Tabs.
Context `{!WidgetSettingsService} {P : Platform}.

(** [{ ...defaults, ...tab }] for one field: a key the entry carries wins,
    whatever its value. *)
Definition spread {A} (explicit : Partial.key A) (dflt : option A)
  : option A :=
  default dflt explicit.

(** The callback of [this.tabs.map] in [getTabs]. *)
Definition resolveTab (tab : Partial.tab) : IWidgetTab :=
  let resetMethod' := DELETE in
  let fetchUrl' := Some getDataUrl ||| Partial.read (Partial.fetchUrl tab) in
  let saveUrl' := Partial.read (Partial.saveUrl tab) ||| fetchUrl' in
  let resetUrl' := Partial.read (Partial.resetUrl tab) ||| saveUrl' in
  {| autosave := spread (Partial.autosave tab) (Some true);
     title := spread (Partial.title tab)
                (Some (toUpperCase (charAt (Partial.name tab) 0)
                         +:+ substr (Partial.name tab) 1));
     fetchUrl := spread (Partial.fetchUrl tab) fetchUrl';
     saveUrl := spread (Partial.saveUrl tab) saveUrl';
     resetUrl := spread (Partial.resetUrl tab) resetUrl';
     resetMethod := spread (Partial.resetMethod tab) (Some resetMethod');
     showControls := spread (Partial.showControls tab) (Some true);
     name := Partial.name tab |}.

Definition getTabs : list IWidgetTab := map resolveTab tabs.

(** [getTabs().find(tab => tab.name === name)]; an omitted argument is
    [undefined] and equals no name. *)
Definition getTab (n : option string) : option IWidgetTab :=
  match n with
  | Some n => find (λ tab, String.eqb (name tab) n) getTabs
  | None => None
  end.
End Tabs.

(** ** HTTP *)

(** The argument of [request]: [{ url, method?, body? }]; an omitted body
    is [undefined]. *)
Record RequestInit := {
  url : string;
  method : option THttpMethod;
  body : value
}.

(** What is handed to [fetch]: the body is the value given to
    [JSON.stringify], when there is one. *)
Record Request := {
  req_url : string;
  req_headers : list (string * string);
  req_method : THttpMethod;
  req_body : option value
}.

(** What comes back: [fetch] rejects, or a response with a status and a
    body that [response.json()] parses ([Some]) or not ([None]). *)
Inductive Response :=
| Unreachable
| Reply (status : Z) (json : option value).

Inductive Error :=
| TransportError
| HttpStatusError (status : Z) (json : option value)
| MalformedResponseError
| TypeError.

(** Modelled from the spec: [handleErrors] of util/requests, which the
    service imports and whose source is not at hand; a non-2xx response
    produces a request error carrying status and body. *)
Definition handleErrors (status : Z) (json : option value) : Error + unit :=
  if Z.leb 200 status && Z.ltb status 300 then inr tt
  else inl (HttpStatusError status json).

Definition failed (r : Response) : bool :=
  match r with
  | Unreachable => true
  | Reply status json =>
      match handleErrors status json, json with
      | inr _, Some _ => false
      | _, _ => true
      end
  end.

(** ** The service *)

Section Service.
(** The remote end: a state and its answer to a request. *)
Context {Σ : Type} (respond : Σ → Request → Response * Σ).
(** [authorizedHeaders] of util/requests *)
Context (authorizedHeaders : string → list (string * string)).
Context `{!WidgetSettingsService} {P : Platform}.

Record World := {
  state_data : value;
  remote : Σ;
  exchanges : list (Request * Response);
  dataUpdated : list value
}.

Definition Present (w : World) : Prop := truthy (state_data w) = true.
Definition Absent (w : World) : Prop := truthy (state_data w) = false.

(** Methods: they read and write the world, and resolve or reject. *)
Definition M (A : Type) : Type := World → (Error + A) * World.

#[global] Instance M_ret : MRet M := λ A a w, (inr a, w).
#[global] Instance M_bind : MBind M := λ A B f m w,
  match m w with
  | (inr a, w') => f a w'
  | (inl e, w') => (inl e, w')
  end.

Definition throw {A} (e : Error) : M A := λ w, (inl e, w).
Definition lift {A} (r : Error + A) : M A := λ w, (r, w).
Definition read_state : M value := λ w, (inr (state_data w), w).

(** [@mutation() SET_WIDGET_DATA] *)
Definition SET_WIDGET_DATA (data : value) : M unit := λ w,
  (inr tt, {| state_data := data; remote := remote w;
              exchanges := exchanges w; dataUpdated := dataUpdated w |}).

(** [this.dataUpdated.next(v)] *)
Definition dataUpdated_next (v : value) : M unit := λ w,
  (inr tt, {| state_data := state_data w; remote := remote w;
              exchanges := exchanges w;
              dataUpdated := (dataUpdated w ++ [v])%list |}).

Definition setWidgetData (data : value) : M unit :=
  SET_WIDGET_DATA data ;;
  v ← read_state;
  dataUpdated_next v.

(** [fetch(request)]: one exchange with the remote end, logged. *)
Definition fetch (r : Request) : M Response := λ w,
  let '(resp, s) := respond (remote w) r in
  (inr resp, {| state_data := state_data w; remote := s;
                exchanges := (exchanges w ++ [(r, resp)])%list;
                dataUpdated := dataUpdated w |}).

(** [new Request(req.url, { headers, method, body })]: the constructor
    throws a [TypeError] when a GET is given a body. *)
Definition new_Request (req : RequestInit) : Error + Request :=
  let method' := default GET (method req) in
  let headers := (authorizedHeaders getApiToken
                    ++ [("Content-Type", "application/json")])%list in
  let body' := if truthy (body req) then Some (body req) else None in
  match method', body' with
  | GET, Some _ => inl TypeError
  | _, _ => inr {| req_url := url req; req_headers := headers;
                   req_method := method'; req_body := body' |}
  end.

Definition request (req : RequestInit) : M value :=
  r ← lift (new_Request req);
  resp ← fetch r;
  match resp with
  | Unreachable => throw TransportError
  | Reply status json =>
      lift (handleErrors status json) ;;
      match json with
      | Some v => mret v
      | None => throw MalformedResponseError
      end
  end.

(** [handleDataAfterFetch]: reading [data.custom] throws on [null] and
    [undefined]; assigning a property to another primitive throws in a
    module, which is strict code. *)
Definition handleDataAfterFetch (data : value) : Error + value :=
  match data with
  | VObj o =>
      let o1 := if truthy (get "custom" o)
                then <["custom_defaults" := get "custom" o]> o
                else o in
      let o2 := <["type" := getWidgetType]> o1 in
      inr (patchAfterFetch (VObj o2))
  | _ => inl TypeError
  end.

Definition fetchData : M value :=
  d ← read_state;
  (if negb (truthy d) then
     data ← request {| url := getDataUrl; method := Some GET;
                       body := VUndef |};
     data ← lift (handleDataAfterFetch data);
     SET_WIDGET_DATA data
   else mret tt) ;;
  read_state.

Definition saveData (data : value) (tabName : option string)
    (method' : option THttpMethod) : M value :=
  let method' := default POST method' in
  let tab := getTab tabName in
  let url' := match tab with
              | Some t => match saveUrl t with
                          | Some u => if truthy_str (Some u) then u
                                      else getDataUrl
                          | None => getDataUrl
                          end
              | None => getDataUrl
              end in
  let bodyData := patchBeforeSend data in
  request {| url := url'; method := Some method'; body := bodyData |} ;;
  fetchData.

Definition saveSettings (settings : value) : M unit :=
  let body' := patchBeforeSend settings in
  let apiSettings := getApiSettings in
  request {| url := settingsSaveUrl apiSettings; method := Some POST;
             body := body' |} ;;
  mret tt.

Definition onSettingsUpdatedHandler (event : ISocketEvent) : M unit :=
  let apiSettings := getApiSettings in
  if negb (String.eqb (type event) (settingsUpdatedEvent apiSettings))
  then mret tt
  else
    d ← read_state;
    if negb (truthy d) then mret tt
    else
      let newSettings := patchAfterFetch (message event) in
      let data := Object_assign ∅ [d] in
      let newData :=
        Object_assign ∅ [VObj data; VObj {[ "settings" := newSettings ]}] in
      setWidgetData (VObj newData).

(** The ways the cache can be acted upon from outside. *)
Inductive Op :=
| FetchData
| SaveData (data : value) (tabName : option string)
           (method' : option THttpMethod)
| SaveSettings (settings : value)
| SocketEvent (event : ISocketEvent).

Definition discard {A} (m : M A) : M value := m ;; mret VUndef.

Definition exec (op : Op) : M value :=
  match op with
  | FetchData => fetchData
  | SaveData data tabName method' => saveData data tabName method'
  | SaveSettings settings => discard (saveSettings settings)
  | SocketEvent event => discard (onSettingsUpdatedHandler event)
  end.

(** Derived notions used to state the facts below. *)
Definition is_GET (u : string) (x : Request * Response) : bool :=
  match req_method (fst x) with
  | GET => String.eqb (req_url (fst x)) u
  | _ => false
  end.

(** What a response resolves to after [handleErrors] and [json()]. *)
Definition outcome (resp : Response) : Error + value :=
  match resp with
  | Unreachable => inl TransportError
  | Reply status json =>
      match handleErrors status json with
      | inl e => inl e
      | inr _ => match json with
                 | Some v => inr v
                 | None => inl MalformedResponseError
                 end
      end
  end.

Definition logged (w : World) (r : Request) (resp : Response) (s : Σ)
  : World :=
  {| state_data := state_data w; remote := s;
     exchanges := (exchanges w ++ [(r, resp)])%list;
     dataUpdated := dataUpdated w |}.

Definition store (w : World) (d : value) : World :=
  {| state_data := d; remote := remote w; exchanges := exchanges w;
     dataUpdated := dataUpdated w |}.

Definition emitted (w : World) (v : value) : World :=
  {| state_data := state_data w; remote := remote w;
     exchanges := exchanges w;
     dataUpdated := (dataUpdated w ++ [v])%list |}.

(** The GET that [fetchData] issues, and what [saveData] and
    [saveSettings] hand to [new Request]. *)
Definition dataRequest : Request :=
  {| req_url := getDataUrl;
     req_headers := (authorizedHeaders getApiToken
                       ++ [("Content-Type", "application/json")])%list;
     req_method := GET; req_body := None |}.

Definition saveUrlOf (tabName : option string) : string :=
  match getTab tabName with
  | Some t => match saveUrl t with
              | Some u => if truthy_str (Some u) then u else getDataUrl
              | None => getDataUrl
              end
  | None => getDataUrl
  end.

Definition saveRequest (data : value) (tabName : option string)
    (method' : option THttpMethod) : Error + Request :=
  new_Request {| url := saveUrlOf tabName;
                 method := Some (default POST method');
                 body := patchBeforeSend data |}.

Definition settingsRequest (settings : value) : Error + Request :=
  new_Request {| url := settingsSaveUrl getApiSettings;
                 method := Some POST;
                 body := patchBeforeSend settings |}.

(** One exchange with the remote end, then the continuation [k] on its
    payload. *)
Definition after_exchange (r : Request) (w : World)
    (k : value → M value) : (Error + value) * World :=
  let w1 := logged w r (respond (remote w) r).1 (respond (remote w) r).2 in
  match outcome (respond (remote w) r).1 with
  | inl e => (inl e, w1)
  | inr payload => k payload w1
  end.

(** The same when the request has yet to be constructed. *)
Definition after_request (r : Error + Request) (w : World)
    (k : value → M value) : (Error + value) * World :=
  match r with
  | inl e => (inl e, w)
  | inr r => after_exchange r w k
  end.

Definition install (payload : value) : M value := λ w,
  match handleDataAfterFetch payload with
  | inl e => (inl e, w)
  | inr d => (inr d, store w d)
  end.

(** The four ways a call of [fetchData] can go. *)
Inductive fetched (w : World) : (Error + value) → World → Prop :=
| fetched_hit :
    truthy (state_data w) = true →
    fetched w (inr (state_data w)) w
| fetched_failed resp s e :
    truthy (state_data w) = false →
    respond (remote w) dataRequest = (resp, s) →
    failed resp = true →
    fetched w (inl e) (logged w dataRequest resp s)
| fetched_rejected resp s payload :
    truthy (state_data w) = false →
    respond (remote w) dataRequest = (resp, s) →
    failed resp = false → outcome resp = inr payload →
    is_object payload = false →
    fetched w (inl TypeError) (logged w dataRequest resp s)
| fetched_installed resp s payload d :
    truthy (state_data w) = false →
    respond (remote w) dataRequest = (resp, s) →
    failed resp = false → outcome resp = inr payload →
    handleDataAfterFetch payload = inr d →
    fetched w (inr d) (store (logged w dataRequest resp s) d).

(** What [fetchData], [saveData] and [saveSettings] can do to the world:
    nothing is pushed on [dataUpdated]; exchanges are appended to the
    log; either the method rejects and the store is as before, or every
    exchange succeeded and the store is as before or, from a falsy store,
    holds what [handleDataAfterFetch] made of the payload of a final GET
    of the data URL. *)
Definition footprint (w : World) (res : Error + value) (w' : World)
  : Prop :=
  dataUpdated w' = dataUpdated w ∧
  ∃ l, exchanges w' = (exchanges w ++ l)%list ∧
    (((∃ e, res = inl e) ∧ state_data w' = state_data w)
     ∨ (Forall (λ x, failed x.2 = false) l ∧
        (∃ v, res = inr v) ∧
        (state_data w' = state_data w
         ∨ (truthy (state_data w) = false ∧
            ∃ l0 status payload,
              l = (l0 ++ [(dataRequest, Reply status (Some payload))])%list
              ∧ failed (Reply status (Some payload)) = false
              ∧ handleDataAfterFetch payload = inr (state_data w'))))).

(** The generic patch of [handleDataAfterFetch] on an object payload. *)
Definition stamped (o : gmap string value) : gmap string value :=
  <["type" := getWidgetType]>
    (if truthy (get "custom" o)
     then <["custom_defaults" := get "custom" o]> o else o).

(** A socket event is accepted when its type is the registered one and
    a document is cached. *)
Definition accepted (event : ISocketEvent) (w : World) : bool :=
  String.eqb (type event) (settingsUpdatedEvent getApiSettings)
  && truthy (state_data w).

(** The document an accepted event leaves in the cache. *)
Definition patched (d : value) (event : ISocketEvent) : value :=
  VObj (<["settings" := patchAfterFetch (message event)]> (own_props d)).

(** Operations one after the other, each run to completion, whatever it
    resolves to. *)
Definition run_ops (ops : list Op) (w : World) : World :=
  foldl (λ w op, (exec op w).2) w ops.

Definition is_request_op (op : Op) : bool :=
  match op with
  | SocketEvent _ => false
  | _ => true
  end.

Definition makes_no_fetch (op : Op) : bool :=
  match op with
  | SaveSettings _ | SocketEvent _ => true
  | _ => false
  end.

(** How many exchanges an operation can make. *)
Definition exchanges_bound (op : Op) : nat :=
  match op with
  | FetchData => 1
  | SaveData _ _ _ => 2
  | SaveSettings _ => 1
  | SocketEvent _ => 0
  end.

(** [init]: each call subscribes the handler once more to
    [websocketService.socketEvent]; an event published on that subject is
    handed to every subscription in turn. *)
Record Runtime := {
  world : World;
  subscriptions : nat
}.

Definition init (rt : Runtime) : Runtime :=
  {| world := world rt; subscriptions := S (subscriptions rt) |}.

Fixpoint notify (n : nat) (event : ISocketEvent) (w : World) : World :=
  match n with
  | O => w
  | S n => notify n event (onSettingsUpdatedHandler event w).2
  end.

Definition socketEvent_next (event : ISocketEvent) (rt : Runtime)
  : Runtime :=
  {| world := notify (subscriptions rt) event (world rt);
     subscriptions := subscriptions rt |}.

(** The headers [request] puts on every request. *)
Definition requestHeaders : list (string * string) :=
  (authorizedHeaders getApiToken
     ++ [("Content-Type", "application/json")])%list.
End Service.

(** ** A concrete widget and two remote ends, used to run the service *)

Module Demo.
Definition service : WidgetSettingsService :=
  {| getApiSettings :=
       {| settingsUpdatedEvent := "upd"; settingsSaveUrl := "/s" |};
     getDataUrl := "/d";
     getWidgetType := VStr "K";
     tabs := Base.tabs;
     patchAfterFetch := Base.patchAfterFetch;
     patchBeforeSend := Base.patchBeforeSend;
     getApiToken := "token" |}.

(** A widget that leaves every member of the base class as it is. *)
Definition plain : WidgetSettingsService :=
  {| getApiSettings := Base.getApiSettings;
     getDataUrl := "/d";
     getWidgetType := VStr "K";
     tabs := Base.tabs;
     patchAfterFetch := Base.patchAfterFetch;
     patchBeforeSend := Base.patchBeforeSend;
     getApiToken := "token" |}.

Definition authorizedHeaders (token : string) : list (string * string) :=
  [("Authorization", "Bearer " +:+ token)].

(** A remote end that keeps one document: GET returns it, a request with
    a body replaces it. *)
Definition server (doc : value) (r : Request) : Response * value :=
  match req_method r, req_body r with
  | GET, _ => (Reply 200 (Some doc), doc)
  | _, Some b => (Reply 200 (Some (VObj {[ "success" := VBool true ]})), b)
  | _, None => (Reply 200 (Some (VObj {[ "success" := VBool true ]})), doc)
  end.

(** A remote end that is out of service. *)
Definition down (s : unit) (r : Request) : Response * unit :=
  (Reply 503 None, s).

Definition settings (l : list (string * Z)) : value :=
  VObj (list_to_map (map (λ kv, (fst kv, VNum (snd kv))) l)).

Definition doc (l : list (string * Z)) : value :=
  VObj {[ "settings" := settings l ]}.

Definition cached (l : list (string * Z)) : value :=
  VObj (<[ "type" := VStr "K" ]> {[ "settings" := settings l ]}).

Definition world {Σ} (s : Σ) (d : value) : World :=
  {| state_data := d; remote := s; exchanges := []; dataUpdated := [] |}.

(** An entry with a fetch URL of its own and nothing else. *)
Definition explicit_fetch : Partial.tab :=
  {| Partial.name := "x"; Partial.title := None;
     Partial.fetchUrl := Some (Some "/f"); Partial.saveUrl := None;
     Partial.resetUrl := None; Partial.resetMethod := None;
     Partial.autosave := None; Partial.showControls := None |}.

(** An entry that carries the key [saveUrl] and nothing else: with the
    empty string, or with [undefined]. *)
Definition with_saveUrl (n : string) (u : option string) : Partial.tab :=
  {| Partial.name := n; Partial.title := None;
     Partial.fetchUrl := None; Partial.saveUrl := Some u;
     Partial.resetUrl := None; Partial.resetMethod := None;
     Partial.autosave := None; Partial.showControls := None |}.

(** Upper case for the letters a to z, standing for the platform's
    [toUpperCase] on the names used below. *)
Fixpoint upper (s : string) : string :=
  match s with
  | EmptyString => EmptyString
  | String c rest => String (upper_ascii c) (upper rest)
  end.

Definition platform : Platform :=
  {| toUpperCase := upper;
     toUpperCase_empty := eq_refl;
     toUpperCase_ascii := λ c _, eq_refl |}.

(** The remote end holds [{settings: {x: 1}}], nothing is cached. *)
Definition w0 : World := world (doc [("x", 1)]) VUndef.

(** After a first [fetchData]. *)
Definition w1 : World :=
  (fetchData (H := service) server authorizedHeaders w0).2.

(** A document with settings [{a: 1, b: 2}] is cached. *)
Definition wab : World := world VNull (cached [("a", 1); ("b", 2)]).

Definition upd (l : list (string * Z)) : ISocketEvent :=
  {| type := "upd"; message := settings l |}.

Definition trace (w : World (Σ := value))
  : list (THttpMethod * string) :=
  map (λ x, (req_method x.1, req_url x.1)) (exchanges w).

Definition tabbed : WidgetSettingsService :=
  {| getApiSettings := Base.getApiSettings;
     getDataUrl := "/d";
     getWidgetType := VStr "K";
     tabs := [explicit_fetch; Partial.named "settings"];
     patchAfterFetch := Base.patchAfterFetch;
     patchBeforeSend := Base.patchBeforeSend;
     getApiToken := "token" |}.

(** A widget with the code editor tabs. *)
Definition editor : WidgetSettingsService :=
  {| getApiSettings := Base.getApiSettings;
     getDataUrl := "/d";
     getWidgetType := VStr "K";
     tabs := CODE_EDITOR_WITH_CUSTOM_FIELDS_TABS;
     patchAfterFetch := Base.patchAfterFetch;
     patchBeforeSend := Base.patchBeforeSend;
     getApiToken := "token" |}.

(** A widget with a tab that saves to a URL of its own, declared twice. *)
Definition goal_tab (u : string) : Partial.tab :=
  {| Partial.name := "goal"; Partial.title := None;
     Partial.fetchUrl := None; Partial.saveUrl := Some (Some u);
     Partial.resetUrl := None; Partial.resetMethod := None;
     Partial.autosave := Some (Some false); Partial.showControls := None |}.

Definition goal : WidgetSettingsService :=
  {| getApiSettings :=
       {| settingsUpdatedEvent := "upd"; settingsSaveUrl := "/s" |};
     getDataUrl := "/d";
     getWidgetType := VStr "K";
     tabs := [Partial.named "settings"; goal_tab "/goal"; goal_tab "/other";
              with_saveUrl "e" (Some ""); with_saveUrl "u" None];
     patchAfterFetch := Base.patchAfterFetch;
     patchBeforeSend := Base.patchBeforeSend;
     getApiToken := "token" |}.

(** A widget without a data URL. *)
Definition nowhere : WidgetSettingsService :=
  {| getApiSettings := Base.getApiSettings;
     getDataUrl := "";
     getWidgetType := VStr "K";
     tabs := Base.tabs;
     patchAfterFetch := Base.patchAfterFetch;
     patchBeforeSend := Base.patchBeforeSend;
     getApiToken := "token" |}.
End Demo.

(** ** Facts about tabs *)

Section TabFacts.
Context `{!WidgetSettingsService} {P : Platform}.

Lemma substring_all s : String.substring 0 (String.length s) s = s.
Proof. induction s as [|c s IH]; simpl; [done|by rewrite IH]. Qed.

Lemma capitalize_cons c rest :
  toUpperCase (charAt (String c rest) 0) +:+ substr (String c rest) 1
  = toUpperCase (String c "") +:+ rest.
Proof.
  unfold charAt, substr. simpl. rewrite Nat.sub_0_r.
  by rewrite substring_all.
Qed.

Lemma capitalize_empty : toUpperCase (charAt "" 0) +:+ substr "" 1 = "".
Proof. unfold charAt, substr. simpl. by rewrite toUpperCase_empty. Qed.

Lemma or_str_data_url o :
  getDataUrl ≠ "" → Some getDataUrl ||| o = Some getDataUrl.
Proof.
  intros Hne. unfold or_str. simpl.
  apply String.eqb_neq in Hne. by rewrite Hne.
Qed.

Lemma or_str_no_data_url o : getDataUrl = "" → Some getDataUrl ||| o = o.
Proof. intros ->. reflexivity. Qed.

Lemma or_str_None o : None ||| o = o.
Proof. reflexivity. Qed.

Lemma or_str_truthy u o : u ≠ "" → Some u ||| o = Some u.
Proof.
  intros Hne. unfold or_str. simpl.
  apply String.eqb_neq in Hne. by rewrite Hne.
Qed.

Lemma or_str_empty o : Some "" ||| o = o.
Proof. reflexivity. Qed.

(** C3 (amended): [getTabs] returns one tab per declared entry, in
    declaration order, with the name of the entry.  A key the entry
    carries is taken from it, whatever its value, [undefined] included.
    For a key the entry does not carry: the title is the name with its
    first character through [toUpperCase]; [resetMethod] is DELETE;
    [autosave] and [showControls] are true; [fetchUrl] is the data URL
    when that is not empty, and undefined otherwise; [saveUrl] is the data
    URL when that is not empty, and otherwise what the entry has as
    [fetchUrl]; [resetUrl] is what the entry has as [saveUrl] when that is
    a non-empty string, and otherwise what [saveUrl] defaults to. *)
Theorem getTabs_defaults :
  length getTabs = length tabs
  ∧ ∀ i tab, tabs !! i = Some tab →
      ∃ r, getTabs !! i = Some r
        ∧ name r = Partial.name tab
        ∧ (∀ v, Partial.title tab = Some v → title r = v)
        ∧ (∀ v, Partial.fetchUrl tab = Some v → fetchUrl r = v)
        ∧ (∀ v, Partial.saveUrl tab = Some v → saveUrl r = v)
        ∧ (∀ v, Partial.resetUrl tab = Some v → resetUrl r = v)
        ∧ (∀ v, Partial.resetMethod tab = Some v → resetMethod r = v)
        ∧ (∀ v, Partial.autosave tab = Some v → autosave r = v)
        ∧ (∀ v, Partial.showControls tab = Some v → showControls r = v)
        ∧ (Partial.title tab = None →
           title r
           = Some match Partial.name tab with
                  | EmptyString => EmptyString
                  | String c rest => toUpperCase (String c "") +:+ rest
                  end)
        ∧ (Partial.resetMethod tab = None → resetMethod r = Some DELETE)
        ∧ (Partial.autosave tab = None → autosave r = Some true)
        ∧ (Partial.showControls tab = None → showControls r = Some true)
        ∧ (Partial.fetchUrl tab = None →
           fetchUrl r
           = if decide (getDataUrl = "") then None else Some getDataUrl)
        ∧ (Partial.saveUrl tab = None →
           saveUrl r
           = if decide (getDataUrl = "")
             then Partial.read (Partial.fetchUrl tab)
             else Some getDataUrl)
        ∧ (Partial.resetUrl tab = None →
           resetUrl r
           = match Partial.read (Partial.saveUrl tab) with
             | Some (String c u) => Some (String c u)
             | _ => if decide (getDataUrl = "")
                    then Partial.read (Partial.fetchUrl tab)
                    else Some getDataUrl
             end).
Proof.
  unfold getTabs. split; [apply length_map|].
  intros i tab Hi. exists (resolveTab tab).
  split; [by rewrite list_lookup_fmap, Hi|].
  assert (Some getDataUrl ||| Partial.read (Partial.fetchUrl tab)
          = if decide (getDataUrl = "")
            then Partial.read (Partial.fetchUrl tab)
            else Some getDataUrl) as Hfetch.
  { destruct (decide (getDataUrl = "")).
    - by apply or_str_no_data_url.
    - by apply or_str_data_url. }
  destruct tab as [n ti fu su ru rm au sc]; unfold resolveTab;
    cbn [Partial.name Partial.title Partial.fetchUrl Partial.saveUrl
         Partial.resetUrl Partial.resetMethod Partial.autosave
         Partial.showControls name title fetchUrl saveUrl resetUrl
         resetMethod autosave showControls] in *.
  split; [done|].
  do 7 (split; [by intros v ->|]).
  split.
  { intros ->. unfold spread. simpl. f_equal.
    destruct n; [apply capitalize_empty|apply capitalize_cons]. }
  do 3 (split; [by intros ->|]).
  split.
  { intros ->. unfold spread. simpl. simpl in Hfetch. rewrite Hfetch.
    by destruct (decide _). }
  split.
  { intros ->. unfold spread. simpl. by rewrite or_str_None, Hfetch. }
  intros ->. unfold spread. simpl. rewrite or_str_None, Hfetch.
  destruct su as [[[|c u]|]|]; simpl.
  - by rewrite or_str_empty.
  - by rewrite or_str_truthy.
  - by rewrite or_str_None.
  - by rewrite or_str_None.
Qed.

Lemma find_resolved (l : list Partial.tab) n :
  match find (λ r, String.eqb (name r) n) (map resolveTab l) with
  | None => ∀ tab, tab ∈ l → Partial.name tab ≠ n
  | Some r =>
      ∃ i tab, l !! i = Some tab ∧ r = resolveTab tab
        ∧ Partial.name tab = n
        ∧ ∀ j tab', (j < i)%nat → l !! j = Some tab' →
                     Partial.name tab' ≠ n
  end.
Proof.
  induction l as [|tab l IH]; simpl.
  - intros tab Htab. by apply elem_of_nil in Htab.
  - destruct (String.eqb (Partial.name tab) n) eqn:Hn.
    + apply String.eqb_eq in Hn. exists 0%nat, tab.
      split; [done|]. split; [done|]. split; [done|]. intros j ? Hj. lia.
    + apply String.eqb_neq in Hn.
      destruct (find _ (map resolveTab l)) as [r|].
      * destruct IH as (i & tab' & Hi & -> & Hname & Hfirst).
        exists (S i), tab'. split; [done|]. split; [done|].
        split; [done|]. intros [|j] tab'' Hj Hl; simpl in Hl.
        -- by inversion Hl; subst.
        -- apply (Hfirst j); [lia|done].
      * intros tab' [->|Hin]%elem_of_cons; [done|by apply IH].
Qed.

(** X1: [getTab] without a name finds nothing; with a name it finds
    nothing exactly when no declared entry has that name, and otherwise
    returns the resolution of the first declared entry of that name. *)
Theorem getTab_first_match :
  getTab None = None
  ∧ (∀ n, getTab (Some n) = None ↔
          ∀ tab, tab ∈ tabs → Partial.name tab ≠ n)
  ∧ (∀ n r, getTab (Some n) = Some r →
       name r = n
       ∧ ∃ i tab, tabs !! i = Some tab ∧ r = resolveTab tab
           ∧ ∀ j tab', (j < i)%nat → tabs !! j = Some tab' →
                        Partial.name tab' ≠ n).
Proof.
  split; [done|]. unfold getTab, getTabs. split.
  - intros n. pose proof (find_resolved tabs n) as Hf.
    destruct (find _ _) as [r|]; [|done].
    destruct Hf as (i & tab & Hi & _ & Hn & _). split; [done|].
    intros Hall. destruct (Hall tab); [|done].
    by eapply list_elem_of_lookup_2.
  - intros n r Hr. pose proof (find_resolved tabs n) as Hf.
    rewrite Hr in Hf. destruct Hf as (i & tab & Hi & -> & Hn & Hfirst).
    split; [done|]. by exists i, tab.
Qed.




Lemma upper_ascii_idem c : upper_ascii (upper_ascii c) = upper_ascii c.
Proof.
  destruct c as [[] [] [] [] [] [] [] []]; reflexivity.
Qed.

Lemma upper_ascii_low c :
  (nat_of_ascii c < 128)%nat → (nat_of_ascii (upper_ascii c) < 128)%nat.
Proof.
  destruct c as [[] [] [] [] [] [] [] []]; vm_compute; lia.
Qed.

Lemma title_named n :
  title (resolveTab (Partial.named n))
  = Some (toUpperCase (charAt n 0) +:+ substr n 1).
Proof. reflexivity. Qed.

(** X3: for a name that starts with an ASCII character, the default title
    is the name with that character replaced by its upper-case letter when
    it is a lower-case letter a to z, and kept otherwise; such a title is
    a fixed point: taken as a name it yields itself as title. *)
Theorem default_title_capitalizes c rest :
  (nat_of_ascii c < 128)%nat →
  ∃ c', title (resolveTab (Partial.named (String c rest)))
        = Some (String c' rest)
        ∧ ((97 ≤ nat_of_ascii c ≤ 122)%nat →
           nat_of_ascii c' = (nat_of_ascii c - 32)%nat)
        ∧ (¬ (97 ≤ nat_of_ascii c ≤ 122)%nat → c' = c)
        ∧ title (resolveTab (Partial.named (String c' rest)))
          = Some (String c' rest).
Proof.
  intros Hc. exists (upper_ascii c).
  rewrite !title_named, !capitalize_cons.
  rewrite (toUpperCase_ascii c Hc).
  rewrite (toUpperCase_ascii _ (upper_ascii_low c Hc)), upper_ascii_idem.
  split; [done|]. split; [|split; [|done]].
  - intros [H1 H2]. unfold upper_ascii. cbv zeta.
    apply Nat.leb_le in H1, H2. rewrite H1, H2. cbv [andb].
    rewrite nat_ascii_embedding; lia.
  - intros Hn. unfold upper_ascii. cbv zeta.
    destruct (Nat.leb 97 (nat_of_ascii c)) eqn:H1; [|done].
    destruct (Nat.leb (nat_of_ascii c) 122) eqn:H2; [|done].
    apply Nat.leb_le in H1, H2. lia.
Qed.

(** X4: a widget whose tab list is
    [CODE_EDITOR_WITH_CUSTOM_FIELDS_TABS] gets four tabs, HTML, CSS, JS
    and customFields, the first three titled by their names and the last
    "Custom Fields"; none autosaves or shows controls; the first three
    are the tabs of a widget declaring [CODE_EDITOR_TABS]. *)
Theorem code_editor_tabs_resolved :
  tabs = CODE_EDITOR_WITH_CUSTOM_FIELDS_TABS →
  map (λ r, (name r, title r)) getTabs
  = [("HTML", Some "HTML"); ("CSS", Some "CSS"); ("JS", Some "JS");
     ("customFields", Some "Custom Fields")]
  ∧ (∀ r, r ∈ getTabs → autosave r = Some false
                          ∧ showControls r = Some false
                          ∧ resetMethod r = Some DELETE)
  ∧ take 3 getTabs = map resolveTab CODE_EDITOR_TABS.
Proof.
  intros Htabs. unfold getTabs. rewrite Htabs. split; [|split].
  - unfold CODE_EDITOR_WITH_CUSTOM_FIELDS_TABS, CODE_EDITOR_TABS.
    cbn [map app fst]. unfold resolveTab, spread.
    cbn [name title Partial.name Partial.title default].
    rewrite !capitalize_cons.
    rewrite !toUpperCase_ascii by (vm_compute; lia). reflexivity.
  - intros r Hr. apply list_elem_of_fmap in Hr as (tab & -> & Htab).
    unfold CODE_EDITOR_WITH_CUSTOM_FIELDS_TABS, CODE_EDITOR_TABS in Htab.
    simpl in Htab.
    repeat (apply elem_of_cons in Htab as [->|Htab]; [done|]).
    by apply elem_of_nil in Htab.
  - done.
Qed.
End TabFacts.

(** ** Facts about the service *)

Section ServiceFacts.
Context {Σ : Type} (respond : Σ → Request → Response * Σ).
Context (authorizedHeaders : string → list (string * string)).
Context `{!WidgetSettingsService} {P : Platform}.

Local Abbreviation World := (@World Σ).
Local Abbreviation request := (request respond authorizedHeaders).
Local Abbreviation new_Request := (new_Request authorizedHeaders).
Local Abbreviation fetchData := (fetchData respond authorizedHeaders).
Local Abbreviation saveData := (saveData respond authorizedHeaders).
Local Abbreviation saveSettings := (saveSettings respond authorizedHeaders).
Local Abbreviation exec := (exec respond authorizedHeaders).
Local Abbreviation logged := (@logged Σ).
Local Abbreviation store := (@store Σ).
Local Abbreviation emitted := (@emitted Σ).
Local Abbreviation dataRequest := (dataRequest authorizedHeaders).
Local Abbreviation saveRequest := (saveRequest authorizedHeaders).
Local Abbreviation settingsRequest := (settingsRequest authorizedHeaders).
Local Abbreviation onSettingsUpdatedHandler :=
  (@onSettingsUpdatedHandler Σ _).
Local Abbreviation accepted := (@accepted Σ _).
Local Abbreviation after_exchange := (after_exchange respond).
Local Abbreviation install := (@install Σ _).
Local Abbreviation footprint := (footprint authorizedHeaders).
Local Abbreviation fetched := (fetched respond authorizedHeaders).
Local Abbreviation after_request := (after_request respond).

Lemma request_eq req w :
  request req w = after_request (new_Request req) w mret.
Proof.
  unfold request, after_request, after_exchange, mbind, M_bind, lift.
  destruct (new_Request req) as [e|r]; [reflexivity|].
  unfold fetch, outcome, logged.
  destruct (respond _ _) as [resp s]; simpl.
  destruct resp as [|status json]; [reflexivity|].
  unfold lift, throw, mret, M_ret.
  destruct (handleErrors status json); [reflexivity|].
  destruct json; reflexivity.
Qed.

Lemma after_request_bind r w (k : value → M value) :
  match after_request r w mret with
  | (inr a, w') => k a w'
  | (inl e, w') => (inl e, w')
  end = after_request r w k.
Proof.
  unfold after_request, after_exchange.
  destruct r as [e|r]; [reflexivity|].
  destruct (outcome _); reflexivity.
Qed.

Lemma failed_outcome resp :
  failed resp = true ↔ ∃ e, outcome resp = inl e.
Proof.
  destruct resp as [|status json]; simpl.
  - split; eauto.
  - destruct (handleErrors status json); [split; eauto|].
    destruct json; split; eauto; try discriminate.
    intros [e He]; discriminate.
Qed.

Lemma Object_assign_copy d : Object_assign ∅ [d] = own_props d.
Proof. simpl. apply (right_id_L ∅ (∪)). Qed.

Lemma Object_assign_settings (o : gmap string value) v :
  Object_assign ∅ [VObj o; VObj {[ "settings" := v ]}]
  = <["settings" := v]> o.
Proof.
  simpl. rewrite (right_id_L ∅ (∪)). symmetry.
  apply insert_union_singleton_l.
Qed.

Lemma handler_accepted event w :
  accepted event w = true →
  onSettingsUpdatedHandler event w
  = (inr tt, emitted (store w (patched (state_data w) event))
               (patched (state_data w) event)).
Proof.
  unfold accepted, onSettingsUpdatedHandler. intros Hacc.
  apply andb_true_iff in Hacc as [Hty Hd].
  rewrite Hty. cbv beta iota zeta delta [negb].
  unfold mbind at 1, M_bind at 1, read_state at 1. rewrite Hd.
  cbv beta iota zeta delta [negb].
  by rewrite Object_assign_copy, Object_assign_settings.
Qed.

Lemma handler_ignored event w :
  accepted event w = false →
  onSettingsUpdatedHandler event w = (inr tt, w).
Proof.
  unfold accepted, onSettingsUpdatedHandler. intros Hacc.
  apply andb_false_iff in Hacc as [Hty | Hd].
  - rewrite Hty. reflexivity.
  - destruct (String.eqb _ _); [|reflexivity]. simpl.
    unfold mbind, M_bind, read_state. rewrite Hd. reflexivity.
Qed.

Lemma fetchData_present w :
  truthy (state_data w) = true → fetchData w = (inr (state_data w), w).
Proof.
  intros Hd. unfold fetchData, mbind, M_bind, read_state.
  rewrite Hd. reflexivity.
Qed.

Lemma fetchData_absent w :
  truthy (state_data w) = false →
  fetchData w = after_exchange dataRequest w install.
Proof.
  intros Hd. unfold fetchData, mbind, M_bind, read_state at 1.
  rewrite Hd. simpl. rewrite request_eq.
  unfold after_request, after_exchange, install, dataRequest. simpl.
  destruct (outcome _) as [e|payload]; [reflexivity|].
  unfold lift, mret, M_ret.
  destruct (handleDataAfterFetch payload); reflexivity.
Qed.

Lemma saveData_eq data tabName method' w :
  saveData data tabName method' w
  = after_request (saveRequest data tabName method') w (λ _, fetchData).
Proof.
  unfold saveData, mbind, M_bind. rewrite request_eq.
  by rewrite after_request_bind.
Qed.

Lemma saveSettings_eq settings w :
  discard (saveSettings settings) w
  = after_request (settingsRequest settings) w (λ _, mret VUndef).
Proof.
  unfold discard, saveSettings, mbind, M_bind. rewrite request_eq.
  unfold settingsRequest, after_request, after_exchange.
  destruct (new_Request _); [reflexivity|].
  destruct (outcome _); reflexivity.
Qed.

Lemma after_request_inv r w k res w' :
  after_request r w k = (res, w') →
  (∃ e, r = inl e ∧ res = inl e ∧ w' = w)
  ∨ (∃ rq, r = inr rq ∧ after_exchange rq w k = (res, w')).
Proof.
  destruct r as [e|rq]; simpl; intros Hk.
  - left. exists e. by inversion Hk.
  - right. eauto.
Qed.

Lemma after_exchange_inv r w k res w' :
  after_exchange r w k = (res, w') →
  let resp := (respond (remote w) r).1 in
  let w1 := logged w r resp (respond (remote w) r).2 in
  (∃ e, failed resp = true ∧ res = inl e ∧ w' = w1)
  ∨ (∃ payload, failed resp = false ∧ outcome resp = inr payload
                ∧ k payload w1 = (res, w')).
Proof.
  intros Hk resp w1. unfold after_exchange in Hk. fold resp w1 in Hk.
  destruct (outcome resp) as [e|payload] eqn:Ho.
  - left. exists e. split; [apply failed_outcome; eauto|].
    by inversion Hk.
  - right. exists payload. split; [|done].
    destruct (failed resp) eqn:Hf; [|done].
    apply failed_outcome in Hf as [e He]. congruence.
Qed.

Lemma install_inv payload w res w' :
  install payload w = (res, w') →
  (res = inl TypeError ∧ is_object payload = false ∧ w' = w)
  ∨ (∃ d, handleDataAfterFetch payload = inr d ∧ is_object payload = true
          ∧ res = inr d ∧ w' = store w d).
Proof.
  unfold install. destruct payload; simpl; intros Hi; inversion Hi; eauto.
  right. eauto.
Qed.

Lemma fetchData_fetched w res w' :
  fetchData w = (res, w') → fetched w res w'.
Proof.
  destruct (truthy (state_data w)) eqn:Hd.
  - rewrite fetchData_present by done. intros Hf.
    inversion Hf; subst. by constructor.
  - rewrite fetchData_absent by done. intros Hf.
    apply after_exchange_inv in Hf.
    destruct (respond (remote w) dataRequest) as [resp s] eqn:Hr.
    simpl in Hf.
    destruct Hf as [(e & Hfail & -> & ->) | (payload & Hok & Ho & Hi)].
    + by eapply fetched_failed.
    + apply install_inv in Hi
        as [(-> & Hobj & ->) | (d & Hh & Hobj & -> & ->)].
      * by eapply fetched_rejected.
      * by eapply fetched_installed.
Qed.

Lemma outcome_inr resp payload :
  outcome resp = inr payload → ∃ status, resp = Reply status (Some payload).
Proof.
  destruct resp as [|status json]; simpl; [discriminate|].
  destruct (handleErrors status json); [discriminate|].
  destruct json; [|discriminate]. intros [= ->]. eauto.
Qed.

Lemma fetched_footprint w res w' :
  fetched w res w' → footprint w res w'.
Proof.
  unfold footprint.
  destruct 1 as [Hd|resp s e Hd Hr Hf|resp s payload Hd Hr Hf Ho Hobj
                |resp s payload d Hd Hr Hf Ho Hh]; simpl.
  - split; [done|]. exists []. split; [by rewrite app_nil_r|].
    right. split; [constructor|]. split; [eauto|]. by left.
  - split; [done|]. eexists. split; [done|]. left. eauto.
  - split; [done|]. eexists. split; [done|]. left. eauto.
  - split; [done|]. eexists. split; [done|]. right.
    split; [by repeat constructor|]. split; [eauto|]. right.
    split; [done|]. apply outcome_inr in Ho as [status ->].
    by exists [], status, payload.
Qed.

Lemma footprint_after w r resp s res w' :
  footprint (logged w r resp s) res w' → failed resp = false →
  footprint w res w'.
Proof.
  unfold footprint; simpl.
  intros (Hu & l & Hl & Hcase) Hf. split; [done|].
  exists ((r, resp) :: l). split.
  { rewrite Hl, <- app_assoc. done. }
  destruct Hcase as [?|(Hall & Hres & Hcase)]; [by left|right].
  split; [by constructor|]. split; [done|].
  destruct Hcase as [?|(Hd & l0 & status & payload & -> & ? & ?)];
    [by left|right].
  split; [done|]. exists ((r, resp) :: l0), status, payload. done.
Qed.

Lemma footprint_failed w r resp s e :
  footprint w (inl e) (logged w r resp s).
Proof.
  split; [done|]. eexists. split; [done|]. left. eauto.
Qed.

Lemma footprint_rejected (w : World) e : footprint w (inl e) w.
Proof.
  split; [done|]. exists []. split; [by rewrite app_nil_r|]. left. eauto.
Qed.

Lemma exec_footprint op w res w' :
  (∀ event, op ≠ SocketEvent event) →
  exec op w = (res, w') → footprint w res w'.
Proof.
  intros Hop. destruct op as [|data tabName method'|settings|event]; simpl.
  - intros Hf. by apply fetched_footprint, fetchData_fetched.
  - rewrite saveData_eq. intros Hs. apply after_request_inv in Hs.
    destruct Hs as [(e & _ & -> & ->) | (rq & _ & Hs)];
      [apply footprint_rejected|].
    apply after_exchange_inv in Hs.
    destruct Hs as [(e & Hf & -> & ->) | (payload & Hf & Ho & Hk)].
    + apply footprint_failed.
    + eapply footprint_after; [|done].
      by apply fetched_footprint, fetchData_fetched.
  - rewrite saveSettings_eq. intros Hs. apply after_request_inv in Hs.
    destruct Hs as [(e & _ & -> & ->) | (rq & _ & Hs)];
      [apply footprint_rejected|].
    apply after_exchange_inv in Hs.
    destruct Hs as [(e & Hf & -> & ->) | (payload & Hf & Ho & Hk)].
    + apply footprint_failed.
    + inversion Hk; subst. split; [done|]. eexists. split; [done|].
      right. split; [by repeat constructor|]. split; [eauto|]. by left.
  - by destruct (Hop event).
Qed.

Lemma saveSettings_keeps settings w res w' :
  discard (saveSettings settings) w = (res, w') →
  state_data w' = state_data w.
Proof.
  rewrite saveSettings_eq. intros Hs. apply after_request_inv in Hs.
  destruct Hs as [(e & _ & _ & ->) | (rq & _ & Hs)]; [done|].
  apply after_exchange_inv in Hs.
  destruct Hs as [(e & _ & _ & ->) | (payload & _ & _ & Hk)]; [done|].
  by inversion Hk.
Qed.

Lemma accepted_true event w :
  accepted event w = true ↔
  type event = settingsUpdatedEvent getApiSettings ∧ Present w.
Proof.
  unfold accepted, Present. rewrite andb_true_iff.
  by rewrite String.eqb_eq.
Qed.

(** C5: a socket event whose type differs from the registered
    settings-updated event name is dropped by the handler, whatever the
    cache holds: the handler returns and the world, hence the cached
    document and what has been pushed on [dataUpdated], is as before. *)
Theorem foreign_event_ignored (w : World) (event : ISocketEvent) :
  type event ≠ settingsUpdatedEvent getApiSettings →
  onSettingsUpdatedHandler event w = (inr tt, w)
  ∧ state_data (onSettingsUpdatedHandler event w).2 = state_data w
  ∧ dataUpdated (onSettingsUpdatedHandler event w).2 = dataUpdated w.
Proof.
  intros Hty.
  assert (onSettingsUpdatedHandler event w = (inr tt, w)) as ->; [|done].
  apply handler_ignored. unfold accepted.
  apply String.eqb_neq in Hty. by rewrite Hty.
Qed.

(** C1 (amended): with a document cached, an event of the registered type
    makes the handler store a document whose [settings] field is the
    payload as the [patchAfterFetch] hook returns it, a replacement and
    not an overlay of the former settings, and whose other top-level
    fields are those of the former document; that document is pushed on
    [dataUpdated]. *)
Theorem accepted_event_replaces_settings (w : World)
    (event : ISocketEvent) :
  Present w →
  type event = settingsUpdatedEvent getApiSettings →
  ∃ o : gmap string value,
    onSettingsUpdatedHandler event w
    = (inr tt, emitted (store w (VObj o)) (VObj o))
    ∧ o !! "settings" = Some (patchAfterFetch (message event))
    ∧ ∀ k, k ≠ "settings" → o !! k = own_props (state_data w) !! k.
Proof.
  intros Hp Hty. eexists. split; [|split].
  - apply handler_accepted, accepted_true. done.
  - apply lookup_insert_eq.
  - intros k Hk. by rewrite lookup_insert_ne.
Qed.

(** C9: a widget that does not override [getApiSettings] registers the
    empty string as its settings-updated event name, so an event whose
    type is the empty string is accepted and, with a document cached, the
    handler replaces the [settings] of the cached document with the
    payload passed through [patchAfterFetch], the payload itself when that
    hook is not overridden either. *)
Theorem default_event_name_accepts_empty_type (w : World)
    (event : ISocketEvent) :
  getApiSettings = Base.getApiSettings →
  type event = "" →
  Present w →
  settingsUpdatedEvent getApiSettings = ""
  ∧ accepted event w = true
  ∧ ∃ o : gmap string value,
      onSettingsUpdatedHandler event w
      = (inr tt, emitted (store w (VObj o)) (VObj o))
      ∧ o !! "settings" = Some (patchAfterFetch (message event))
      ∧ (patchAfterFetch = Base.patchAfterFetch →
         o !! "settings" = Some (message event))
      ∧ ∀ k, k ≠ "settings" → o !! k = own_props (state_data w) !! k.
Proof.
  intros Hapi Hty Hp.
  assert (accepted event w = true) as Hacc.
  { apply accepted_true. by rewrite Hapi, Hty. }
  split; [by rewrite Hapi|]. split; [done|].
  eexists. split; [by apply handler_accepted|].
  split; [apply lookup_insert_eq|]. split.
  - intros ->. apply lookup_insert_eq.
  - intros k Hk. by rewrite lookup_insert_ne.
Qed.

(** C10: [dataUpdated] receives a value exactly when the handler accepts
    an event, and then it is the document just stored; an event that is
    not accepted changes nothing, and [fetchData], [saveData] (with the
    [fetchData] at its end) and [saveSettings] push nothing, also when
    they store a new document. *)
Theorem dataUpdated_only_on_accepted_event :
  (∀ (w : World) event,
     accepted event w = true →
     ∃ w', onSettingsUpdatedHandler event w = (inr tt, w')
           ∧ state_data w' = patched (state_data w) event
           ∧ dataUpdated w' = (dataUpdated w ++ [state_data w'])%list)
  ∧ (∀ (w : World) event,
       accepted event w = false →
       onSettingsUpdatedHandler event w = (inr tt, w))
  ∧ (∀ op (w : World) res w',
       (∀ event, op ≠ SocketEvent event) →
       exec op w = (res, w') → dataUpdated w' = dataUpdated w).
Proof.
  split; [|split].
  - intros w event Hacc. eexists. split; [by apply handler_accepted|].
    done.
  - intros w event Hacc. by apply handler_ignored.
  - intros op w res w' Hop Hex.
    by destruct (exec_footprint op w res w' Hop Hex) as [Hu _].
Qed.

Lemma handler_cases event w :
  onSettingsUpdatedHandler event w = (inr tt, w)
  ∧ accepted event w = false
  ∨ onSettingsUpdatedHandler event w
    = (inr tt, emitted (store w (patched (state_data w) event))
                 (patched (state_data w) event))
    ∧ accepted event w = true.
Proof.
  destruct (accepted event w) eqn:Hacc.
  - right. split; [by apply handler_accepted|done].
  - left. split; [by apply handler_ignored|done].
Qed.

Lemma exec_socket event w res w' :
  exec (SocketEvent event) w = (res, w') →
  res = inr VUndef ∧ onSettingsUpdatedHandler event w = (inr tt, w').
Proof.
  simpl. unfold discard, mbind, M_bind.
  destruct (handler_cases event w) as [[-> _]|[-> _]];
    intros Hex; by inversion Hex.
Qed.

(** C6: with no document cached the handler drops every event, also one
    of the registered type; a step from no cached document to a cached
    one is made by [fetchData], alone or at the end of [saveData], it
    resolves, and its last exchange is a successful GET of the data URL
    whose payload [handleDataAfterFetch] turned into the cached document;
    no operation takes a cached document away. *)
Theorem cache_state_machine :
  (∀ (w : World) event,
     Absent w → onSettingsUpdatedHandler event w = (inr tt, w))
  ∧ (∀ op (w : World) res w',
       exec op w = (res, w') → Absent w → Present w' →
       (op = FetchData ∨ ∃ data tabName method', op = SaveData data tabName method')
       ∧ (∃ v, res = inr v)
       ∧ ∃ l0 status payload,
           exchanges w'
           = (exchanges w ++ l0
                ++ [(dataRequest, Reply status (Some payload))])%list
           ∧ failed (Reply status (Some payload)) = false
           ∧ handleDataAfterFetch payload = inr (state_data w'))
  ∧ (∀ op (w : World) res w',
       exec op w = (res, w') → Present w → Present w').
Proof.
  unfold Absent, Present. split; [|split].
  - intros w event Hd. apply handler_ignored. unfold accepted.
    rewrite Hd. apply andb_false_r.
  - intros op w res w' Hex Hd Hd'.
    assert (state_data w' ≠ state_data w) as Hne by congruence.
    destruct op as [|data tabName method'|settings|event].
    1,2: split; [eauto|];
      eapply exec_footprint in Hex as (_ & l & Hl & Hcase);
      [|intros ?; discriminate];
      destruct Hcase as
        [[_ ?]|(_ & Hres & [?|(_ & l0 & status & payload & -> & Hf & Hh)])];
      try done;
      (split; [done|]); exists l0, status, payload; by rewrite Hl.
    + by apply saveSettings_keeps in Hex.
    + apply exec_socket in Hex as [_ Hex].
      rewrite handler_ignored in Hex; [by inversion Hex; subst|].
      unfold accepted. rewrite Hd. apply andb_false_r.
  - intros op w res w' Hex Hd.
    destruct op as [|data tabName method'|settings|event].
    4: { apply exec_socket in Hex as [_ Hex].
         destruct (handler_cases event w) as [[Hh _]|[Hh _]];
           rewrite Hh in Hex; by inversion Hex; subst. }
    all: eapply exec_footprint in Hex as (_ & l & Hl & Hcase);
      [|intros ?; discriminate];
      destruct Hcase as [[_ ->]|(_ & _ & [->|[? _]])]; congruence.
Qed.

(** C7: when an HTTP exchange made by [fetchData], [saveData] or
    [saveSettings] fails (no answer, a status outside 2xx, a body that
    does not parse), the method rejects and the cached document is the
    one it was before the call; more generally every rejection of these
    methods leaves the cached document as it was. *)
Theorem failed_request_keeps_cache op (w : World) res w' l :
  (∀ event, op ≠ SocketEvent event) →
  exec op w = (res, w') →
  exchanges w' = (exchanges w ++ l)%list →
  (Exists (λ x, failed x.2 = true) l →
   (∃ e, res = inl e) ∧ state_data w' = state_data w)
  ∧ (∀ e, res = inl e → state_data w' = state_data w).
Proof.
  intros Hop Hex Hl.
  eapply exec_footprint in Hex as (_ & l' & Hl' & Hcase); [|done].
  assert (l' = l) as -> by (apply (app_inv_head (exchanges w)); congruence).
  destruct Hcase as [[Hres Hd]|(Hall & [v ->] & _)].
  - split; [done|]. intros; done.
  - split; [|intros; discriminate].
    intros Hsome. apply Exists_exists in Hsome as (x & Hx & Hfail).
    rewrite Forall_forall in Hall. apply Hall in Hx.
    simpl in Hx, Hfail. congruence.
Qed.

Lemma handleDataAfterFetch_inv payload d :
  handleDataAfterFetch payload = inr d →
  ∃ o, payload = VObj o ∧ d = patchAfterFetch (VObj (stamped o)).
Proof.
  destruct payload; simpl; try discriminate. intros [= <-]. eauto.
Qed.

Lemma stamped_type o : stamped o !! "type" = Some getWidgetType.
Proof. apply lookup_insert_eq. Qed.

Lemma stamped_custom_defaults o :
  stamped o !! "custom_defaults"
  = if truthy (get "custom" o) then Some (get "custom" o)
    else o !! "custom_defaults".
Proof.
  unfold stamped. rewrite lookup_insert_ne by done.
  destruct (truthy _); [apply lookup_insert_eq|done].
Qed.

Lemma stamped_other o k :
  k ≠ "type" → k ≠ "custom_defaults" → stamped o !! k = o !! k.
Proof.
  intros Ht Hc. unfold stamped. rewrite lookup_insert_ne by done.
  destruct (truthy _); [by rewrite lookup_insert_ne|done].
Qed.

Lemma keeps_type op (w : World) res w' :
  exec op w = (res, w') → Present w →
  own_props (state_data w') !! "type" = own_props (state_data w) !! "type".
Proof.
  intros Hex Hd. destruct op as [|data tabName method'|settings|event].
  4: { apply exec_socket in Hex as [_ Hex].
       destruct (handler_cases event w) as [[Hh _]|[Hh _]];
         rewrite Hh in Hex; inversion Hex; subst; [done|].
       simpl. by rewrite lookup_insert_ne. }
  all: eapply exec_footprint in Hex as (_ & l & Hl & Hcase);
    [|intros ?; discriminate];
    destruct Hcase as [[_ ->]|(_ & _ & [->|[? _]])];
    unfold Present in Hd; congruence.
Qed.

(** C8: with no document cached, whatever object the GET of the data URL
    returns, [fetchData] stores the result of [patchAfterFetch] on the
    payload with its [type] set to the widget type of the service, over
    any [type] of the payload, with a [custom] field that is set copied
    to [custom_defaults], and with its other fields as received; a
    payload that is not an object makes [fetchData] reject and nothing is
    stored.  Once a document is cached no operation changes its [type]
    field. *)
Theorem fetch_stamps_type :
  (∀ (w : World) status o s,
     Absent w →
     respond (remote w) dataRequest = (Reply status (Some (VObj o)), s) →
     failed (Reply status (Some (VObj o))) = false →
     ∃ d : gmap string value,
       fetchData w
       = (inr (patchAfterFetch (VObj d)),
          store (logged w dataRequest (Reply status (Some (VObj o))) s)
            (patchAfterFetch (VObj d)))
       ∧ d !! "type" = Some getWidgetType
       ∧ (truthy (get "custom" o) = true →
          d !! "custom_defaults" = Some (get "custom" o))
       ∧ (truthy (get "custom" o) = false →
          d !! "custom_defaults" = o !! "custom_defaults")
       ∧ ∀ k, k ≠ "type" → k ≠ "custom_defaults" → d !! k = o !! k)
  ∧ (∀ (w : World) status payload s,
       Absent w →
       respond (remote w) dataRequest = (Reply status (Some payload), s) →
       is_object payload = false →
       ∃ e, fetchData w
            = (inl e, logged w dataRequest (Reply status (Some payload)) s))
  ∧ (∀ op (w : World) res w',
       exec op w = (res, w') → Present w →
       own_props (state_data w') !! "type"
       = own_props (state_data w) !! "type").
Proof.
  unfold Absent. split; [|split].
  - intros w status o s Hd Hr Hf. exists (stamped o). split.
    + rewrite fetchData_absent by done. unfold after_exchange.
      rewrite Hr. simpl fst. simpl snd.
      destruct (outcome (Reply status (Some (VObj o)))) as [e|v] eqn:Ho.
      { assert (failed (Reply status (Some (VObj o))) = true)
          by (apply failed_outcome; eauto). congruence. }
      apply outcome_inr in Ho as Hv. destruct Hv as [? [= _ <-]].
      reflexivity.
    + split; [apply stamped_type|].
      split; [|split]; [intros Hc..|apply stamped_other];
        by rewrite stamped_custom_defaults, Hc.
  - intros w status payload s Hd Hr Hobj.
    rewrite fetchData_absent by done. unfold after_exchange.
    rewrite Hr. simpl fst. simpl snd.
    destruct (outcome (Reply status (Some payload))) as [e|v] eqn:Ho;
      [eauto|].
    apply outcome_inr in Ho as Hv. destruct Hv as [? [= _ <-]].
    unfold install. destruct payload; simpl in *; eauto; discriminate.
  - apply keeps_type.
Qed.

Lemma dataRequest_is_GET resp : is_GET getDataUrl (dataRequest, resp) = true.
Proof. simpl. apply String.eqb_refl. Qed.

(** C4: with a document cached, [fetchData] makes no exchange with the
    remote end and returns the cached document, the world being as
    before; so when a first call from an empty cache resolves and leaves
    a document cached, it has made one exchange, the GET of the data URL,
    and a second call makes none and returns the same document.  With
    [patchAfterFetch] as in the base class every call that resolves
    leaves a document cached. *)
Theorem fetchData_cached :
  (∀ w : World, Present w → fetchData w = (inr (state_data w), w))
  ∧ (∀ (w : World) v w1,
       Absent w → fetchData w = (inr v, w1) → Present w1 →
       (∃ resp, exchanges w1 = (exchanges w ++ [(dataRequest, resp)])%list
                ∧ is_GET getDataUrl (dataRequest, resp) = true)
       ∧ (a ← fetchData; b ← fetchData; mret (a, b)) w = (inr (v, v), w1))
  ∧ (patchAfterFetch = Base.patchAfterFetch →
     ∀ (w : World) v w1, fetchData w = (inr v, w1) → Present w1).
Proof.
  unfold Present, Absent. split; [|split].
  - intros w Hd. by apply fetchData_present.
  - intros w v w1 Hd Hf Hd1.
    pose proof (fetchData_fetched _ _ _ Hf) as Hfd.
    inversion Hfd as [Hhit| | |resp s payload d _ Hr Hfail Ho Hh];
      subst; [congruence|].
    split.
    + exists resp. split; [done|apply dataRequest_is_GET].
    + unfold mbind at 1, M_bind. rewrite Hf.
      unfold mbind, M_bind. rewrite (fetchData_present _ Hd1). done.
  - intros Hbase w v w1 Hf.
    pose proof (fetchData_fetched _ _ _ Hf) as Hfd.
    inversion Hfd as [Hhit| | |resp s payload d _ Hr Hfail Ho Hh];
      subst; [done|].
    apply handleDataAfterFetch_inv in Hh as (o & -> & ->).
    simpl. by rewrite Hbase.
Qed.

(** C2 (amended): when [saveData] resolves it has made the save request
    first, and that exchange succeeded; with a document already cached it
    makes no other exchange, the cached document is the one from before
    the call and is what it returns; with no document cached it then gets
    the data URL and caches and returns what [handleDataAfterFetch] makes
    of that payload.  The cache takes neither the argument nor the answer
    to the save request. *)
Theorem saveData_resolved data tabName method' (w : World) v w' :
  saveData data tabName method' w = (inr v, w') →
  ∃ rq resp s,
    saveRequest data tabName method' = inr rq
    ∧ respond (remote w) rq = (resp, s)
    ∧ failed resp = false
    ∧ v = state_data w'
    ∧ (Present w →
       w' = logged w rq resp s ∧ state_data w' = state_data w)
    ∧ (Absent w →
       ∃ status payload s',
         respond s dataRequest = (Reply status (Some payload), s')
         ∧ failed (Reply status (Some payload)) = false
         ∧ handleDataAfterFetch payload = inr v
         ∧ w' = store
                  (logged (logged w rq resp s)
                     dataRequest (Reply status (Some payload)) s') v).
Proof.
  unfold Present, Absent. rewrite saveData_eq. intros Hs.
  apply after_request_inv in Hs.
  destruct Hs as [(e & _ & ? & _) | (rq & Hrq & Hs)]; [discriminate|].
  apply after_exchange_inv in Hs.
  destruct (respond (remote w) rq) as [resp s] eqn:Hr. simpl in Hs.
  destruct Hs as [(e & _ & ? & _) | (_ & Hok & _ & Hf)]; [discriminate|].
  exists rq, resp, s. split; [done|]. split; [done|]. split; [done|].
  apply fetchData_fetched in Hf.
  inversion Hf as [Hhit| | |resp' s' payload d Hd Hr' Hfail Ho Hh];
    subst; simpl in *.
  - split; [done|]. split; [done|]. congruence.
  - split; [done|]. split; [congruence|]. intros _.
    apply outcome_inr in Ho as [status ->]. by exists status, payload, s'.
Qed.

(** *** Requests *)

Local Abbreviation requestHeaders := (requestHeaders authorizedHeaders).
Local Abbreviation run_ops := (run_ops respond authorizedHeaders).
Local Abbreviation notify := (@notify Σ _).
Local Abbreviation socketEvent_next := (@socketEvent_next Σ _).
Local Abbreviation init := (@init Σ).

Lemma new_Request_inr req r :
  new_Request req = inr r →
  req_url r = url req
  ∧ req_headers r = requestHeaders
  ∧ req_method r = default GET (method req)
  ∧ req_body r = (if truthy (body req) then Some (body req) else None).
Proof.
  unfold new_Request.
  destruct (default GET (method req)), (truthy (body req));
    intros [= <-]; done.
Qed.

Lemma fetched_log w res w' :
  fetched w res w' →
  exchanges w' = exchanges w
  ∨ ∃ resp, exchanges w' = (exchanges w ++ [(dataRequest, resp)])%list.
Proof. destruct 1; simpl; eauto. Qed.

Lemma saveData_log data tabName method' w res w' :
  saveData data tabName method' w = (res, w') →
  (∃ e, saveRequest data tabName method' = inl e ∧ res = inl e ∧ w' = w)
  ∨ ∃ rq resp l,
      saveRequest data tabName method' = inr rq
      ∧ exchanges w' = (exchanges w ++ (rq, resp) :: l)%list
      ∧ (l = []
         ∨ ∃ resp', l = [(dataRequest, resp')] ∧ failed resp = false
                    ∧ truthy (state_data w) = false).
Proof.
  rewrite saveData_eq. intros Hs. apply after_request_inv in Hs.
  destruct Hs as [(e & Hrq & -> & ->) | (rq & Hrq & Hs)]; [left; eauto|].
  right. apply after_exchange_inv in Hs.
  destruct (respond (remote w) rq) as [resp s] eqn:Hr. simpl in Hs.
  exists rq, resp.
  destruct Hs as [(e & _ & -> & ->) | (payload & Hok & _ & Hf)].
  - exists []. eauto.
  - apply fetchData_fetched in Hf.
    inversion Hf as [Hhit|resp' s' e Hd|resp' s' p Hd|resp' s' p d Hd];
      subst; simpl in *.
    + exists []. eauto.
    + exists [(dataRequest, resp')]. rewrite <- app_assoc. eauto 10.
    + exists [(dataRequest, resp')]. rewrite <- app_assoc. eauto 10.
    + exists [(dataRequest, resp')]. rewrite <- app_assoc. eauto 10.
Qed.

Lemma saveSettings_run settings w :
  ∃ rq,
    settingsRequest settings = inr rq
    ∧ saveSettings settings w
      = (match outcome (respond (remote w) rq).1 with
         | inl e => inl e
         | inr _ => inr tt
         end,
         logged w rq (respond (remote w) rq).1 (respond (remote w) rq).2).
Proof.
  unfold settingsRequest, saveSettings, mbind, M_bind. rewrite request_eq.
  unfold after_request, after_exchange, new_Request. simpl.
  eexists. split; [reflexivity|]. simpl.
  destruct (outcome _); reflexivity.
Qed.


(** X6: on a widget with a non-empty data URL the save request of
    [saveData] never goes to an empty URL: it goes to the [saveUrl] of the
    tab that [getTab] finds for the given name when that is a non-empty
    string, and to the data URL when no tab is found or the [saveUrl] of
    the tab found is empty or undefined. *)
Theorem saveData_target data tabName method' rq :
  getDataUrl ≠ "" →
  saveRequest data tabName method' = inr rq →
  req_url rq ≠ ""
  ∧ (getTab tabName = None → req_url rq = getDataUrl)
  ∧ (∀ t, getTab tabName = Some t →
          req_url rq = match saveUrl t with
                       | Some (String c u) => String c u
                       | _ => getDataUrl
                       end).
Proof.
  intros Hurl Hrq. apply new_Request_inr in Hrq as (-> & _). simpl.
  unfold saveUrlOf. destruct (getTab tabName) as [t|] eqn:Ht.
  - destruct (saveUrl t) as [[|c u]|] eqn:Hu; simpl.
    all: split; [done|]; split; [done|]; intros ? [= <-]; by rewrite Hu.
  - split; [done|]. split; [done|]. done.
Qed.

(** X7: whatever an operation does, the exchanges it adds to the log all
    carry the headers of [request] (the authorization headers of the API
    token, then the JSON content type), and there are at most one of them
    for [fetchData] and [saveSettings], two for [saveData] and none for a
    socket event. *)
Theorem exchanges_authorized_and_bounded op (w : World) res w' :
  exec op w = (res, w') →
  ∃ l, exchanges w' = (exchanges w ++ l)%list
       ∧ Forall (λ x, req_headers x.1 = requestHeaders) l
       ∧ (length l ≤ exchanges_bound op)%nat.
Proof.
  destruct op as [|data tabName method'|settings|event]; simpl; intros Hex.
  - apply fetchData_fetched, fetched_log in Hex as [->|[resp ->]].
    + exists []. rewrite app_nil_r. split; [done|]. split; [done|].
      simpl; lia.
    + eexists. split; [done|]. split; [by repeat constructor|]. done.
  - apply saveData_log in Hex
      as [(e & _ & _ & ->) | (rq & resp & l & Hrq & -> & Hcase)].
    + exists []. rewrite app_nil_r. split; [done|]. split; [done|].
      simpl; lia.
    + apply new_Request_inr in Hrq as (_ & Hh & _).
      eexists. split; [done|].
      destruct Hcase as [->|(resp' & -> & _)];
        (split; [by repeat constructor|simpl; lia]).
  - unfold discard, mbind, M_bind in Hex.
    destruct (saveSettings_run settings w) as (rq & Hrq & Hrun).
    rewrite Hrun in Hex.
    apply new_Request_inr in Hrq as (_ & Hh & _).
    exists [(rq, (respond (remote w) rq).1)].
    split; [|split; [by repeat constructor|done]].
    destruct (outcome _); by inversion Hex.
  - apply exec_socket in Hex as [_ Hex]. exists [].
    rewrite app_nil_r. split; [|split; [done|simpl; lia]].
    destruct (handler_cases event w) as [[Hh _]|[Hh _]];
      rewrite Hh in Hex; by inversion Hex.
Qed.


(** *** How operations compose *)

Lemma patched_patched d e1 e2 :
  patched (patched d e1) e2 = patched d e2.
Proof. unfold patched. simpl. by rewrite insert_insert_eq. Qed.

Lemma accepted_after_store (w : World) d e v :
  accepted e w = true →
  accepted e (emitted (store w (patched d e)) v) = true.
Proof.
  unfold accepted. simpl. rewrite !andb_true_iff. by intros [-> _].
Qed.

(** X9: two events of the registered type, handled one after the other
    with a document cached: the cached [settings] are those of the second
    event, the other fields are those of the document from before both,
    and [dataUpdated] has received the two documents in order, the second
    being the cached one; two events with the same payload leave the
    document the first one left. *)
Theorem events_last_write_wins (w : World) e1 e2 :
  Present w →
  type e1 = settingsUpdatedEvent getApiSettings →
  type e2 = settingsUpdatedEvent getApiSettings →
  ∃ (o1 o2 : gmap string value) w',
    (onSettingsUpdatedHandler e1 ;; onSettingsUpdatedHandler e2) w
    = (inr tt, w')
    ∧ state_data w' = VObj o2
    ∧ dataUpdated w' = (dataUpdated w ++ [VObj o1; VObj o2])%list
    ∧ o1 !! "settings" = Some (patchAfterFetch (message e1))
    ∧ o2 !! "settings" = Some (patchAfterFetch (message e2))
    ∧ (∀ k, k ≠ "settings" → o2 !! k = own_props (state_data w) !! k)
    ∧ (message e1 = message e2 → o1 = o2).
Proof.
  intros Hp H1 H2.
  assert (accepted e1 w = true) as Ha1 by by apply accepted_true.
  assert (accepted e2 w = true) as Ha2 by by apply accepted_true.
  eexists _, _, _. split.
  { unfold mbind, M_bind. rewrite (handler_accepted e1 w Ha1).
    rewrite handler_accepted.
    - simpl state_data. rewrite patched_patched. reflexivity.
    - unfold accepted in *. simpl.
      apply andb_true_iff in Ha2 as [-> _]. done. }
  simpl. split; [done|]. split; [by rewrite <- app_assoc|].
  split; [apply lookup_insert_eq|]. split; [apply lookup_insert_eq|].
  split; [intros k Hk; by rewrite lookup_insert_ne|].
  by intros ->.
Qed.

(** X10: with a document cached, an event of the registered type followed
    by [fetchData] makes no exchange, and [fetchData] returns the document
    the event left: the pushed settings with the other fields as cached
    before. *)
Theorem push_then_fetch (w : World) event :
  Present w →
  type event = settingsUpdatedEvent getApiSettings →
  ∃ (o : gmap string value) w',
    (onSettingsUpdatedHandler event ;; fetchData) w = (inr (VObj o), w')
    ∧ state_data w' = VObj o
    ∧ exchanges w' = exchanges w
    ∧ o !! "settings" = Some (patchAfterFetch (message event))
    ∧ ∀ k, k ≠ "settings" → o !! k = own_props (state_data w) !! k.
Proof.
  intros Hp Hty.
  assert (accepted event w = true) as Ha by by apply accepted_true.
  eexists _, _. split.
  { unfold mbind, M_bind. rewrite (handler_accepted event w Ha).
    by rewrite fetchData_present. }
  simpl. split; [done|]. split; [done|].
  split; [apply lookup_insert_eq|].
  intros k Hk. by rewrite lookup_insert_ne.
Qed.

Lemma stamped_stamped o : stamped (stamped o) = stamped o.
Proof.
  assert (get "custom" (stamped o) = get "custom" o) as Hc.
  { unfold get. by rewrite stamped_other. }
  apply map_eq. intros k.
  destruct (decide (k = "type")) as [->|Ht]; [by rewrite !stamped_type|].
  destruct (decide (k = "custom_defaults")) as [->|Hd].
  - rewrite (stamped_custom_defaults (stamped o)), Hc.
    rewrite stamped_custom_defaults. by destruct (truthy _).
  - by rewrite !stamped_other.
Qed.

(** X11: with [patchAfterFetch] as in the base class, what
    [handleDataAfterFetch] returns is a fixed point of it: patching a
    document that has been patched changes nothing. *)
Theorem handleDataAfterFetch_idempotent payload d :
  patchAfterFetch = Base.patchAfterFetch →
  handleDataAfterFetch payload = inr d →
  handleDataAfterFetch d = inr d.
Proof.
  intros Hbase Hh. apply handleDataAfterFetch_inv in Hh as (o & -> & ->).
  rewrite Hbase. unfold Base.patchAfterFetch.
  change (handleDataAfterFetch (VObj (stamped o)))
    with (inr (A := Error) (patchAfterFetch (VObj (stamped (stamped o))))).
  by rewrite Hbase, stamped_stamped.
Qed.

(** *** Runs of operations *)

Lemma exec_keeps_present op (w : World) :
  Present w → Present (exec op w).2.
Proof.
  intros Hd. destruct (exec op w) as [res w'] eqn:Hex. simpl.
  destruct op as [|data tabName method'|settings|event].
  4: { apply exec_socket in Hex as [_ Hex].
       destruct (handler_cases event w) as [[Hh _]|[Hh _]];
         rewrite Hh in Hex; by inversion Hex; subst. }
  all: eapply exec_footprint in Hex as (_ & l & Hl & Hcase);
    [|intros ?; discriminate];
    unfold Present in *;
    destruct Hcase as [[_ ->]|(_ & _ & [->|[? _]])]; congruence.
Qed.

Lemma run_ops_snoc ops op (w : World) :
  run_ops (ops ++ [op]) w = (exec op (run_ops ops w)).2.
Proof. unfold run_ops. by rewrite foldl_app. Qed.

(** X12: once a document is cached, no run of operations, however long
    and whatever each one resolves to, takes the cached document away or
    changes its [type] field. *)
Theorem run_keeps_document ops (w : World) :
  Present w →
  Present (run_ops ops w)
  ∧ own_props (state_data (run_ops ops w)) !! "type"
    = own_props (state_data w) !! "type".
Proof.
  intros Hd. induction ops as [|op ops IH] using rev_ind; [done|].
  destruct IH as [Hp Ht]. rewrite run_ops_snoc. split.
  - by apply exec_keeps_present.
  - rewrite <- Ht.
    destruct (exec op (run_ops ops w)) as [res w'] eqn:Hex. simpl.
    by eapply keeps_type.
Qed.

(** X13: with no document cached, a run made of socket events and calls
    of [saveSettings] only leaves the cache empty and pushes nothing on
    [dataUpdated]: only [fetchData], alone or within [saveData], brings a
    document in. *)
Theorem run_without_fetch ops (w : World) :
  Absent w →
  Forall (λ op, makes_no_fetch op = true) ops →
  state_data (run_ops ops w) = state_data w
  ∧ dataUpdated (run_ops ops w) = dataUpdated w.
Proof.
  intros Hd. induction ops as [|op ops IH] using rev_ind; [done|].
  intros [Hops Hop]%Forall_app. rewrite Forall_singleton in Hop.
  destruct (IH Hops) as [Hs Hu]. rewrite run_ops_snoc.
  destruct (exec op (run_ops ops w)) as [res w'] eqn:Hex. simpl.
  destruct op as [|data tabName method'|settings|event];
    simpl in Hop; try discriminate.
  - split.
    + apply saveSettings_keeps in Hex. congruence.
    + eapply exec_footprint in Hex as [Hu' _]; [congruence|].
      intros ?; discriminate.
  - apply exec_socket in Hex as [_ Hex].
    rewrite handler_ignored in Hex; [by inversion Hex; subst|].
    unfold accepted, Absent in *. rewrite Hs, Hd. apply andb_false_r.
Qed.

(** X14: whatever the run, the values it pushes on [dataUpdated] are
    objects, and there is at most one of them per socket event in the
    run. *)
Theorem run_pushes_documents ops (w : World) :
  ∃ l, dataUpdated (run_ops ops w) = (dataUpdated w ++ l)%list
       ∧ Forall (λ v, is_object v = true) l
       ∧ (length l
          ≤ length (filter (λ op, is_request_op op = false) ops))%nat.
Proof.
  induction ops as [|op ops IH] using rev_ind.
  - exists []. simpl. rewrite app_nil_r. done.
  - destruct IH as (l & Hl & Hobj & Hlen). rewrite run_ops_snoc.
    rewrite filter_app, length_app.
    destruct (exec op (run_ops ops w)) as [res w'] eqn:Hex. simpl.
    destruct op as [|data tabName method'|settings|event].
    4: { apply exec_socket in Hex as [_ Hex].
         destruct (handler_cases event (run_ops ops w)) as [[Hh _]|[Hh _]];
           rewrite Hh in Hex; inversion Hex; subst; simpl.
         - exists l. split; [done|]. split; [done|]. lia.
         - exists (l ++ [patched (state_data (run_ops ops w)) event])%list.
           rewrite Hl, <- app_assoc. split; [done|].
           split; [apply Forall_app; by repeat constructor|].
           rewrite length_app. simpl. lia. }
    all: eapply exec_footprint in Hex as [Hu _]; [|intros ?; discriminate];
      exists l; rewrite Hu; split; [done|]; split; [done|]; lia.
Qed.

(** *** Subscriptions *)

Lemma notify_ignored n event (w : World) :
  accepted event w = false → notify n event w = w.
Proof.
  intros Ha. induction n as [|n IH]; [done|]. simpl.
  by rewrite (handler_ignored event w Ha).
Qed.

Lemma notify_accepted n event (w : World) d :
  accepted event w = true →
  state_data w = patched d event →
  state_data (notify n event w) = patched d event
  ∧ dataUpdated (notify n event w)
    = (dataUpdated w ++ replicate n (patched d event))%list.
Proof.
  revert w. induction n as [|n IH]; intros w Ha Hd; simpl.
  - by rewrite app_nil_r.
  - rewrite (handler_accepted event w Ha). simpl.
    rewrite Hd, patched_patched.
    destruct (IH (emitted (store w (patched d event)) (patched d event)))
      as [Hs Hu]; [by apply accepted_after_store|done|].
    split; [done|]. rewrite Hu. simpl. by rewrite <- app_assoc.
Qed.

(** X15: events reach the handler through the subscriptions made by
    [init].  Before any call of [init] an event published on the socket
    leaves the world as it is; an event that is not accepted does so
    whatever the subscriptions; an accepted event, after [init] has been
    called [n] times with [n] positive, leaves the document one run of the
    handler leaves, and that document is pushed [n] times on
    [dataUpdated]. *)
Theorem events_reach_each_subscription (rt : Runtime) event :
  (subscriptions rt = 0%nat → world (socketEvent_next event rt) = world rt)
  ∧ (accepted event (world rt) = false →
     world (socketEvent_next event rt) = world rt)
  ∧ (accepted event (world rt) = true →
     let rt' := socketEvent_next event (init rt) in
     let d := patched (state_data (world rt)) event in
     state_data (world rt') = d
     ∧ dataUpdated (world rt')
       = (dataUpdated (world rt)
            ++ replicate (S (subscriptions rt)) d)%list
     ∧ subscriptions rt' = S (subscriptions rt)).
Proof.
  split; [|split].
  - intros Hn. unfold socketEvent_next. simpl. by rewrite Hn.
  - intros Ha. simpl. by apply notify_ignored.
  - intros Ha. simpl. rewrite (handler_accepted event (world rt) Ha).
    simpl.
    destruct (notify_accepted (subscriptions rt) event
                (emitted
                   (store (world rt)
                      (patched (state_data (world rt)) event))
                   (patched (state_data (world rt)) event))
                (state_data (world rt)))
      as [Hs Hu]; [by apply accepted_after_store|done|].
    split; [done|]. split; [|done]. rewrite Hu. simpl.
    by rewrite <- app_assoc.
Qed.
End ServiceFacts.

(** ** The service at work on a concrete widget *)

#[local] Existing Instance Demo.platform.

(** C1: the cache holds settings [{a: 1, b: 2}] and an event of the
    registered type carries [{a: 9}]; the cached settings become [{a: 9}]:
    the key [b], absent from the payload, has not kept its value. *)
Lemma push_overlay_counterexample :
  let w' := (onSettingsUpdatedHandler (H := Demo.service)
               (Demo.upd [("a", 9)]) Demo.wab).2 in
  Present Demo.wab
  ∧ type (Demo.upd [("a", 9)])
    = settingsUpdatedEvent (getApiSettings (WidgetSettingsService := Demo.service))
  ∧ get "b" (own_props (get "settings" (own_props (state_data Demo.wab))))
    = VNum 2
  ∧ state_data w' = Demo.cached [("a", 9)]
  ∧ get "b" (own_props (get "settings" (own_props (state_data w'))))
    = VUndef.
Proof. vm_compute. repeat split. Qed.

(** C2: a document is cached, [saveData] posts [{settings: {x: 2}}] and
    resolves; the only exchange it adds is the POST, no GET follows, and
    the cache still holds settings [{x: 1}] while the remote end now holds
    [{x: 2}]. *)
Lemma saveData_refetch_counterexample :
  let r := saveData (H := Demo.service) Demo.server Demo.authorizedHeaders
             (Demo.doc [("x", 2)]) None (Some POST) Demo.w1 in
  Demo.trace Demo.w1 = [(GET, "/d")]
  ∧ state_data Demo.w1 = Demo.cached [("x", 1)]
  ∧ r.1 = inr (Demo.cached [("x", 1)])
  ∧ Demo.trace r.2 = [(GET, "/d"); (POST, "/d")]
  ∧ remote r.2 = Demo.doc [("x", 2)]
  ∧ state_data r.2 = Demo.cached [("x", 1)]
  ∧ handleDataAfterFetch (H := Demo.service) (remote r.2)
    = inr (Demo.cached [("x", 2)])
  ∧ state_data r.2 ≠ Demo.cached [("x", 2)].
Proof. vm_compute. repeat split. discriminate. Qed.

(** C3: three entries on which the defaults are not the claimed ones.
    An entry with a [fetchUrl] of its own and no [saveUrl], data URL
    [/d]: the [fetchUrl] is the one of the entry, the [saveUrl] is the
    data URL.  An entry with no URL on a widget whose data URL is empty:
    the [fetchUrl] is undefined, not the data URL.  An entry with an empty
    [saveUrl], data URL [/d]: the [saveUrl] is empty, the [resetUrl] is
    the data URL. *)
Lemma getTabs_saveUrl_counterexample :
  (Partial.saveUrl Demo.explicit_fetch = None
   ∧ getTabs (H := Demo.tabbed) !! 0%nat
     = Some {| title := Some "X"; name := "x"; fetchUrl := Some "/f";
               saveUrl := Some "/d"; resetUrl := Some "/d";
               resetMethod := Some DELETE; autosave := Some true;
               showControls := Some true |}
   ∧ (∀ r, getTabs (H := Demo.tabbed) !! 0%nat = Some r →
           saveUrl r ≠ fetchUrl r))
  ∧ (Partial.fetchUrl (Partial.named "settings") = None
     ∧ getTabs (H := Demo.nowhere)
       = [ {| title := Some "Settings"; name := "settings";
              fetchUrl := None; saveUrl := None; resetUrl := None;
              resetMethod := Some DELETE; autosave := Some true;
              showControls := Some true |} ]
     ∧ (∀ r, r ∈ getTabs (H := Demo.nowhere) →
             fetchUrl r
             ≠ Some (getDataUrl (WidgetSettingsService := Demo.nowhere))))
  ∧ (Partial.resetUrl (Demo.with_saveUrl "e" (Some "")) = None
     ∧ getTabs (H := Demo.goal) !! 3%nat
       = Some {| title := Some "E"; name := "e"; fetchUrl := Some "/d";
                 saveUrl := Some ""; resetUrl := Some "/d";
                 resetMethod := Some DELETE; autosave := Some true;
                 showControls := Some true |}
     ∧ (∀ r, getTabs (H := Demo.goal) !! 3%nat = Some r →
             resetUrl r ≠ saveUrl r)).
Proof.
  split; [|split].
  - split; [reflexivity|]. split; [reflexivity|].
    intros r [= <-]. discriminate.
  - split; [reflexivity|]. split; [reflexivity|].
    intros r Hr. apply list_elem_of_singleton in Hr as ->. discriminate.
  - split; [reflexivity|]. split; [reflexivity|].
    intros r [= <-]. discriminate.
Qed.

(** The tab list [x (with its own fetch URL), settings] on data URL [/d]:
    the [settings] entry resolves to the defaults; and an entry that
    carries [saveUrl] set to [undefined] keeps it so. *)
Lemma getTabs_defaults_witness :
  length (getTabs (H := Demo.tabbed)) = 2%nat
  ∧ (∃ r, getTabs (H := Demo.tabbed) !! 1%nat = Some r
       ∧ name r = "settings" ∧ title r = Some "Settings"
       ∧ fetchUrl r = Some "/d" ∧ saveUrl r = Some "/d"
       ∧ resetUrl r = Some "/d"
       ∧ resetMethod r = Some DELETE ∧ autosave r = Some true
       ∧ showControls r = Some true)
  ∧ (∃ r, getTabs (H := Demo.goal) !! 4%nat = Some r
       ∧ name r = "u" ∧ saveUrl r = None ∧ resetUrl r = Some "/d").
Proof.
  destruct (getTabs_defaults (H := Demo.tabbed)) as [Hlen Htab].
  split; [exact Hlen|]. split.
  - destruct (Htab 1%nat (Partial.named "settings") eq_refl)
      as (r & Hr & Hn & _ & _ & _ & _ & _ & _ & _
          & Ht & Hm & Ha & Hc & Hf & Hs & Hrs).
    exists r. split; [exact Hr|]. split; [exact Hn|].
    split; [rewrite Ht by reflexivity; reflexivity|].
    split; [rewrite Hf by reflexivity; reflexivity|].
    split; [rewrite Hs by reflexivity; reflexivity|].
    split; [rewrite Hrs by reflexivity; reflexivity|].
    split; [by apply Hm|]. split; [by apply Ha|by apply Hc].
  - destruct (getTabs_defaults (H := Demo.goal)) as [_ Hgoal].
    destruct (Hgoal 4%nat (Demo.with_saveUrl "u" None) eq_refl)
      as (r & Hr & Hn & _ & _ & Hs & _ & _ & _ & _
          & _ & _ & _ & _ & _ & _ & Hrs).
    exists r. split; [exact Hr|]. split; [exact Hn|].
    split; [by apply Hs|]. rewrite Hrs by reflexivity. reflexivity.
Defined.

(** An event of type [other] on a widget registered for [upd]. *)
Lemma foreign_event_ignored_witness :
  let event := {| type := "other"; message := Demo.settings [("a", 9)] |} in
  type event
  ≠ settingsUpdatedEvent (getApiSettings (WidgetSettingsService := Demo.service))
  ∧ onSettingsUpdatedHandler (H := Demo.service) event Demo.wab
    = (inr tt, Demo.wab).
Proof.
  split; [discriminate|].
  apply (foreign_event_ignored (H := Demo.service)). discriminate.
Defined.

(** An [upd] event carrying [{a: 9}] on cached settings [{a: 1, b: 2}]. *)
Lemma accepted_event_replaces_settings_witness :
  Present Demo.wab
  ∧ ∃ o : gmap string value,
      onSettingsUpdatedHandler (H := Demo.service) (Demo.upd [("a", 9)])
        Demo.wab
      = (inr tt, emitted (store Demo.wab (VObj o)) (VObj o))
      ∧ o !! "settings" = Some (Demo.settings [("a", 9)])
      ∧ ∀ k, k ≠ "settings" → o !! k = own_props (state_data Demo.wab) !! k.
Proof.
  split; [reflexivity|].
  apply (accepted_event_replaces_settings (H := Demo.service));
    reflexivity.
Defined.

(** An event with the empty type on a widget that keeps the base
    [getApiSettings] and hooks. *)
Lemma default_event_name_accepts_empty_type_witness :
  let event := {| type := ""; message := Demo.settings [("a", 9)] |} in
  Present Demo.wab
  ∧ accepted (H := Demo.plain) event Demo.wab = true
  ∧ ∃ o : gmap string value,
      onSettingsUpdatedHandler (H := Demo.plain) event Demo.wab
      = (inr tt, emitted (store Demo.wab (VObj o)) (VObj o))
      ∧ o !! "settings" = Some (Demo.settings [("a", 9)]).
Proof.
  split; [reflexivity|].
  destruct (default_event_name_accepts_empty_type (H := Demo.plain)
              Demo.wab
              {| type := ""; message := Demo.settings [("a", 9)] |}
              eq_refl eq_refl eq_refl)
    as (_ & Hacc & o & Hrun & _ & Hbase & _).
  split; [exact Hacc|]. exists o. split; [exact Hrun|].
  apply Hbase. reflexivity.
Defined.

(** An accepted event pushes the stored document; a first [fetchData]
    replaces the cache and pushes nothing. *)
Lemma dataUpdated_only_on_accepted_event_witness :
  (∃ w', onSettingsUpdatedHandler (H := Demo.service) (Demo.upd [("a", 9)])
           Demo.wab = (inr tt, w')
         ∧ dataUpdated w' = [Demo.cached [("a", 9)]])
  ∧ dataUpdated Demo.w1 = []
  ∧ state_data Demo.w1 ≠ state_data Demo.w0.
Proof.
  destruct (dataUpdated_only_on_accepted_event (Σ := value) Demo.server
              Demo.authorizedHeaders (H := Demo.service))
    as (Hacc & _ & Hops).
  split; [|split].
  - destruct (Hacc Demo.wab (Demo.upd [("a", 9)]) eq_refl)
      as (w' & Hrun & Hd & Hu).
    exists w'. split; [exact Hrun|]. rewrite Hu, Hd. reflexivity.
  - apply (Hops FetchData Demo.w0
             (fetchData (H := Demo.service) Demo.server
                Demo.authorizedHeaders Demo.w0).1 Demo.w1).
    + intros event; discriminate.
    + reflexivity.
  - vm_compute. discriminate.
Defined.

(** An event on an empty cache is dropped; a first [fetchData] fills it. *)
Lemma cache_state_machine_witness :
  onSettingsUpdatedHandler (H := Demo.service) (Demo.upd [("a", 9)]) Demo.w0
  = (inr tt, Demo.w0)
  ∧ Absent Demo.w0 ∧ Present Demo.w1
  ∧ (∃ l0 status payload,
       exchanges Demo.w1
       = (exchanges Demo.w0 ++ l0
            ++ [(dataRequest (H := Demo.service) Demo.authorizedHeaders,
                 Reply status (Some payload))])%list
       ∧ handleDataAfterFetch (H := Demo.service) payload
         = inr (state_data Demo.w1)).
Proof.
  destruct (cache_state_machine (Σ := value) Demo.server
              Demo.authorizedHeaders (H := Demo.service))
    as (Habs & Hstep & _).
  split; [apply Habs; reflexivity|].
  split; [reflexivity|]. split; [reflexivity|].
  destruct (Hstep FetchData Demo.w0
              (fetchData (H := Demo.service) Demo.server
                 Demo.authorizedHeaders Demo.w0).1 Demo.w1
              eq_refl eq_refl eq_refl)
    as (_ & _ & l0 & status & payload & Hl & _ & Hh).
  exists l0, status, payload. split; assumption.
Defined.

(** [saveData] against a remote end that answers 503. *)
Lemma failed_request_keeps_cache_witness :
  let w := Demo.world tt (Demo.cached [("x", 1)]) in
  let r := saveData (H := Demo.service) Demo.down Demo.authorizedHeaders
             (Demo.doc [("x", 2)]) None None w in
  Exists (λ x, failed x.2 = true) (exchanges r.2)
  ∧ (∃ e, r.1 = inl e)
  ∧ state_data r.2 = Demo.cached [("x", 1)].
Proof.
  intros w r.
  assert (Exists (λ x : Request * Response, failed x.2 = true)
            (exchanges r.2)) as Hfail
    by (apply Exists_cons_hd; reflexivity).
  split; [exact Hfail|].
  apply (failed_request_keeps_cache (Σ := unit) Demo.down
           Demo.authorizedHeaders (H := Demo.service)
           (SaveData (Demo.doc [("x", 2)]) None None) w r.1 r.2
           (exchanges r.2)).
  - intros event; discriminate.
  - reflexivity.
  - reflexivity.
  - exact Hfail.
Defined.

(** The first [fetchData] stamps the type [K]; an accepted event keeps it. *)
Lemma fetch_stamps_type_witness :
  Absent Demo.w0
  ∧ (∃ d : gmap string value,
       fetchData (H := Demo.service) Demo.server Demo.authorizedHeaders
         Demo.w0
       = (inr (VObj d),
          store
            (logged Demo.w0
               (dataRequest (H := Demo.service) Demo.authorizedHeaders)
               (Reply 200 (Some (Demo.doc [("x", 1)])))
               (Demo.doc [("x", 1)]))
            (VObj d))
       ∧ d !! "type" = Some (VStr "K")
       ∧ d !! "settings" = Some (Demo.settings [("x", 1)]))
  ∧ own_props (state_data
                 (onSettingsUpdatedHandler (H := Demo.service)
                    (Demo.upd [("a", 9)]) Demo.wab).2) !! "type"
    = Some (VStr "K").
Proof.
  destruct (fetch_stamps_type (Σ := value) Demo.server
              Demo.authorizedHeaders (H := Demo.service))
    as (Hfetch & _ & Hkeep).
  split; [reflexivity|]. split.
  - destruct (Hfetch Demo.w0 200 {[ "settings" := Demo.settings [("x", 1)] ]}
                (Demo.doc [("x", 1)]) eq_refl eq_refl eq_refl)
      as (d & Hrun & Hty & _ & _ & Hother).
    exists d. split; [|split].
    + exact Hrun.
    + exact Hty.
    + rewrite Hother by discriminate. reflexivity.
  - rewrite (Hkeep (SocketEvent (Demo.upd [("a", 9)])) Demo.wab
               (inr VUndef)
               (onSettingsUpdatedHandler (H := Demo.service)
                  (Demo.upd [("a", 9)]) Demo.wab).2 eq_refl eq_refl).
    reflexivity.
Defined.

(** Two calls of [fetchData] from an empty cache: one GET, one value. *)
Lemma fetchData_cached_witness :
  Absent Demo.w0 ∧ Present Demo.w1
  ∧ Demo.trace Demo.w1 = [(GET, "/d")]
  ∧ (a ← fetchData (H := Demo.service) Demo.server Demo.authorizedHeaders;
     b ← fetchData (H := Demo.service) Demo.server Demo.authorizedHeaders;
     mret (a, b)) Demo.w0
    = (inr (Demo.cached [("x", 1)], Demo.cached [("x", 1)]), Demo.w1).
Proof.
  destruct (fetchData_cached (Σ := value) Demo.server
              Demo.authorizedHeaders (H := Demo.service))
    as (_ & Htwice & _).
  split; [reflexivity|]. split; [reflexivity|]. split; [reflexivity|].
  destruct (Htwice Demo.w0 (Demo.cached [("x", 1)]) Demo.w1
              eq_refl eq_refl eq_refl) as [_ Hrun].
  exact Hrun.
Defined.

(** [saveData] with a document cached: one exchange, the cache as before. *)
Lemma saveData_resolved_witness :
  let r := saveData (H := Demo.service) Demo.server Demo.authorizedHeaders
             (Demo.doc [("x", 2)]) None (Some POST) Demo.w1 in
  Present Demo.w1
  ∧ r.1 = inr (state_data r.2)
  ∧ state_data r.2 = state_data Demo.w1
  ∧ (length (exchanges r.2) = S (length (exchanges Demo.w1))).
Proof.
  intros r.
  destruct (saveData_resolved (Σ := value) Demo.server
              Demo.authorizedHeaders (H := Demo.service)
              (Demo.doc [("x", 2)]) None (Some POST) Demo.w1
              (Demo.cached [("x", 1)]) r.2 eq_refl)
    as (rq & resp & s & Hrq & Hr & Hok & Hv & Hpresent & _).
  split; [reflexivity|].
  destruct (Hpresent eq_refl) as [Hw Hd].
  split; [|split].
  - rewrite <- Hv. reflexivity.
  - exact Hd.
  - rewrite Hw. reflexivity.
Defined.

(** ** More of the service at work *)

(** [getTab] on a widget that declares the tab [goal] twice. *)
Lemma getTab_first_match_witness :
  getTab (H := Demo.goal) (Some "none") = None
  ∧ (∃ r, getTab (H := Demo.goal) (Some "goal") = Some r
          ∧ name r = "goal" ∧ saveUrl r = Some "/goal").
Proof.
  destruct (getTab_first_match (H := Demo.goal)) as (_ & Hnone & Hsome).
  split.
  - apply Hnone. intros tab Htab.
    repeat (apply elem_of_cons in Htab as [->|Htab]; [discriminate|]).
    by apply elem_of_nil in Htab.
  - eexists. split; [reflexivity|].
    destruct (Hsome "goal" _ eq_refl) as [Hn _].
    split; [exact Hn|reflexivity].
Defined.


(** The code editor tabs on a widget that declares them. *)
Lemma code_editor_tabs_resolved_witness :
  tabs (WidgetSettingsService := Demo.editor)
  = CODE_EDITOR_WITH_CUSTOM_FIELDS_TABS
  ∧ map (λ r, (name r, title r)) (getTabs (H := Demo.editor))
    = [("HTML", Some "HTML"); ("CSS", Some "CSS"); ("JS", Some "JS");
       ("customFields", Some "Custom Fields")].
Proof.
  split; [reflexivity|].
  by destruct (code_editor_tabs_resolved (H := Demo.editor) eq_refl).
Defined.


(** The save request for the tab [goal] goes to the URL of the first
    entry of that name; for the tab [u], whose [saveUrl] is undefined, it
    goes to the data URL. *)
Lemma saveData_target_witness :
  (∃ rq, saveRequest (H := Demo.goal) Demo.authorizedHeaders
           (Demo.doc [("x", 2)]) (Some "goal") None = inr rq
         ∧ req_url rq ≠ "" ∧ req_url rq = "/goal")
  ∧ (∃ rq, saveRequest (H := Demo.goal) Demo.authorizedHeaders
             (Demo.doc [("x", 2)]) (Some "u") None = inr rq
           ∧ req_url rq = "/d").
Proof.
  split.
  - eexists. split; [reflexivity|].
    destruct (saveData_target Demo.authorizedHeaders (H := Demo.goal)
                (Demo.doc [("x", 2)]) (Some "goal") None _
                ltac:(discriminate) eq_refl)
      as (Hne & _ & Hsome).
    split; [exact Hne|]. exact (Hsome _ eq_refl).
  - eexists. split; [reflexivity|].
    destruct (saveData_target Demo.authorizedHeaders (H := Demo.goal)
                (Demo.doc [("x", 2)]) (Some "u") None _
                ltac:(discriminate) eq_refl)
      as (_ & _ & Hsome).
    exact (Hsome _ eq_refl).
Defined.

(** [saveData] from an empty cache: two exchanges, both with the headers
    of [request]. *)
Lemma exchanges_authorized_and_bounded_witness :
  let r := saveData (H := Demo.service) Demo.server Demo.authorizedHeaders
             (Demo.doc [("x", 2)]) None None Demo.w0 in
  ∃ l, exchanges r.2 = (exchanges Demo.w0 ++ l)%list
       ∧ Forall (λ x, req_headers x.1
                      = [("Authorization", "Bearer token");
                         ("Content-Type", "application/json")]) l
       ∧ (length l ≤ 2)%nat.
Proof.
  intros r.
  exact (exchanges_authorized_and_bounded (Σ := value) Demo.server
           Demo.authorizedHeaders (H := Demo.service)
           (SaveData (Demo.doc [("x", 2)]) None None) Demo.w0 r.1 r.2
           eq_refl).
Defined.

(** Two [upd] events, [{a: 9}] then [{b: 7}], on cached settings
    [{a: 1, b: 2}]. *)
Lemma events_last_write_wins_witness :
  ∃ (o1 o2 : gmap string value) w',
    (onSettingsUpdatedHandler (H := Demo.service) (Demo.upd [("a", 9)]) ;;
     onSettingsUpdatedHandler (H := Demo.service) (Demo.upd [("b", 7)]))
      Demo.wab = (inr tt, w')
    ∧ state_data w' = VObj o2
    ∧ o2 !! "settings" = Some (Demo.settings [("b", 7)])
    ∧ o2 !! "type" = Some (VStr "K").
Proof.
  destruct (events_last_write_wins (H := Demo.service) Demo.wab
              (Demo.upd [("a", 9)]) (Demo.upd [("b", 7)])
              eq_refl eq_refl eq_refl)
    as (o1 & o2 & w' & Hrun & Hs & _ & _ & H2 & Hother & _).
  exists o1, o2, w'. split; [exact Hrun|]. split; [exact Hs|].
  split; [exact H2|]. rewrite Hother by discriminate. reflexivity.
Defined.

(** An [upd] event then [fetchData], with a document cached. *)
Lemma push_then_fetch_witness :
  ∃ (o : gmap string value) w',
    (onSettingsUpdatedHandler (H := Demo.service) (Demo.upd [("a", 9)]) ;;
     fetchData (H := Demo.service) Demo.server Demo.authorizedHeaders)
      Demo.wab = (inr (VObj o), w')
    ∧ exchanges w' = []
    ∧ o !! "settings" = Some (Demo.settings [("a", 9)]).
Proof.
  destruct (push_then_fetch (Σ := value) Demo.server Demo.authorizedHeaders
              (H := Demo.service) Demo.wab (Demo.upd [("a", 9)])
              eq_refl eq_refl)
    as (o & w' & Hrun & _ & Hex & Hs & _).
  exists o, w'. split; [exact Hrun|]. split; [exact Hex|exact Hs].
Defined.

(** Patching the document a first [fetchData] cached. *)
Lemma handleDataAfterFetch_idempotent_witness :
  handleDataAfterFetch (H := Demo.service) (Demo.doc [("x", 1)])
  = inr (Demo.cached [("x", 1)])
  ∧ handleDataAfterFetch (H := Demo.service) (Demo.cached [("x", 1)])
    = inr (Demo.cached [("x", 1)]).
Proof.
  split; [reflexivity|].
  exact (handleDataAfterFetch_idempotent (H := Demo.service)
           (Demo.doc [("x", 1)]) (Demo.cached [("x", 1)])
           eq_refl eq_refl).
Defined.

(** A run of four operations on a cached document. *)
Lemma run_keeps_document_witness :
  let ops := [SocketEvent (Demo.upd [("a", 9)]);
              SaveData (Demo.doc [("x", 2)]) None None;
              FetchData;
              SaveSettings (Demo.settings [("a", 3)])] in
  let w := run_ops (H := Demo.service) Demo.server Demo.authorizedHeaders
             ops Demo.wab in
  Present w ∧ own_props (state_data w) !! "type" = Some (VStr "K").
Proof.
  intros ops w.
  destruct (run_keeps_document (Σ := value) Demo.server
              Demo.authorizedHeaders (H := Demo.service) ops Demo.wab
              eq_refl) as [Hp Ht].
  split; [exact Hp|]. exact Ht.
Defined.

(** Events and [saveSettings] on an empty cache. *)
Lemma run_without_fetch_witness :
  let ops := [SocketEvent (Demo.upd [("a", 9)]);
              SaveSettings (Demo.settings [("a", 3)]);
              SocketEvent (Demo.upd [("b", 7)])] in
  let w := run_ops (H := Demo.service) Demo.server Demo.authorizedHeaders
             ops Demo.w0 in
  state_data w = VUndef ∧ dataUpdated w = [].
Proof.
  intros ops w.
  apply (run_without_fetch (Σ := value) Demo.server
           Demo.authorizedHeaders (H := Demo.service) ops Demo.w0 eq_refl).
  repeat constructor.
Defined.

(** One event with no subscription, then with two. *)
Lemma events_reach_each_subscription_witness :
  let rt := {| world := Demo.wab; subscriptions := 0 |} in
  let rt2 := socketEvent_next (H := Demo.service) (Demo.upd [("a", 9)])
               (init (init rt)) in
  world (socketEvent_next (H := Demo.service) (Demo.upd [("a", 9)]) rt)
  = Demo.wab
  ∧ state_data (world rt2) = Demo.cached [("a", 9)]
  ∧ dataUpdated (world rt2)
    = [Demo.cached [("a", 9)]; Demo.cached [("a", 9)]].
Proof.
  intros rt rt2. split.
  - by destruct (events_reach_each_subscription (H := Demo.service) rt
                   (Demo.upd [("a", 9)])) as [Hnone _]; apply Hnone.
  - destruct (events_reach_each_subscription (H := Demo.service) (init rt)
                (Demo.upd [("a", 9)])) as (_ & _ & Hacc).
    destruct (Hacc eq_refl) as (Hs & Hu & _).
    split; [exact Hs|exact Hu].
Defined.

(** The default title of the tab [settings]. *)
Lemma default_title_capitalizes_witness :
  ∃ c', title (resolveTab (H := Demo.service) (Partial.named "settings"))
        = Some (String c' "ettings")
        ∧ nat_of_ascii c' = 83%nat.
Proof.
  destruct (default_title_capitalizes (H := Demo.service) "s" "ettings"
              ltac:(vm_compute; lia))
    as (c' & Ht & Hup & _).
  exists c'. split; [exact Ht|]. apply Hup. vm_compute. lia.
Defined.
